(** * Batch embeddings of backend/apps/rag/batch_utils.py

    A shallow embedding of the module that plans token-bounded batches of
    texts, submits each batch as an asynchronous job of the embedding
    provider, polls the job, and reassembles the embeddings.

    Conventions of the embedding.
    - A Python [str] is a Rocq [string]; [len] is [String.length] and the
      order of [str] is the order of the character codes ([String.ltb]).
    - A Python [int] is a [Z] where it is a quantity of tokens or characters
      and a [nat] where it is an index or an offset in a list.
    - An exception is a value of [exn]; code that can raise returns a
      [result]; code that talks to the provider runs in the monad [M] over
      the history of the calls made so far.
    - [while True] is unrolled with fuel; running out of fuel is the outcome
      [Spin], which is neither a value nor an exception. *)

From Stdlib Require Import List String Ascii ZArith Lia Bool Arith PeanoNat.
From Stdlib Require Import DecimalString Permutation Sorted.
From Stdlib Require DecimalNat OrderedTypeEx.
Import ListNotations.
Local Open Scope list_scope.
Local Open Scope string_scope.

(** ** Exceptions and results *)

Inductive exn : Type :=
| RuntimeError (msg : string)
| RetryError (last : exn)        (* tenacity, once the attempts are used up *)
| JSONDecodeError                (* json.loads *)
| KeyError (key : string)
| TypeError
| ValueError (msg : string)
| ProviderError (msg : string)   (* any Exception of the client, of requests or of tiktoken *)
| PlainException (msg : string). (* raise Exception(msg) *)

Inductive result (A : Type) : Type :=
| Ok (a : A)
| Err (e : exn).
Arguments Ok {A} a.
Arguments Err {A} e.

Definition rbind {A B} (r : result A) (k : A -> result B) : result B :=
  match r with
  | Ok a => k a
  | Err e => Err e
  end.

Fixpoint rmap {A B} (f : A -> result B) (l : list A) : result (list B) :=
  match l with
  | [] => Ok []
  | a :: l' =>
      rbind (f a) (fun b => rbind (rmap f l') (fun bs => Ok (b :: bs)))
  end.

(** ** JSON values, as [json.loads] builds them *)

#[warnings="-register-all"]
Inductive json : Type :=
| JNull
| JBool (b : bool)
| JNum (literal : string)          (* a number, kept as its literal *)
| JStr (s : string)
| JArr (items : list json)
| JObj (fields : list (string * json)).

(** A [dict] built by [json.loads]: of two fields with one name the later
    one stays. *)
Fixpoint dict_get (key : string) (fields : list (string * json)) : option json :=
  match fields with
  | [] => None
  | (k, v) :: rest =>
      match dict_get key rest with
      | Some v' => Some v'
      | None => if String.eqb k key then Some v else None
      end
  end.

(** [obj[key]] for a [str] key: a [dict] gives the value or [KeyError];
    a list, a string, a number, a boolean and [None] give [TypeError]. *)
Definition getitem (obj : json) (key : string) : result json :=
  match obj with
  | JObj fields =>
      match dict_get key fields with
      | Some v => Ok v
      | None => Err (KeyError key)
      end
  | _ => Err TypeError
  end.

Fixpoint chars (s : string) : list json :=
  match s with
  | EmptyString => []
  | String c s' => JStr (String c EmptyString) :: chars s'
  end.

(** [for x in obj]: a list gives its items, a [dict] its keys, a string its
    characters; the other values are not iterable. *)
Definition iterate (obj : json) : result (list json) :=
  match obj with
  | JArr items => Ok items
  | JObj fields => Ok (map (fun kv => JStr (fst kv)) fields)
  | JStr s => Ok (chars s)
  | _ => Err TypeError
  end.

(** ** TokenCounter *)

(** tiktoken, seen from this module: an [Encoding] encodes a text into
    tokens or raises (the default [disallowed_special="all"] makes
    [encode] raise [ValueError] on a text that holds a special token);
    the two lookups give an [Encoding] or raise. *)
Record Encoding : Type := {
  encode : string -> result (list Z)
}.

Record tiktoken : Type := {
  encoding_for_model : string -> result Encoding;
  get_encoding : string -> result Encoding
}.

Definition len (text : string) : Z := Z.of_nat (String.length text).

Definition count_with (func : Encoding) (text : string) : result Z :=
  rbind (encode func text) (fun toks => Ok (Z.of_nat (List.length toks))).

(** [int(len(text) / 4)] *)
Definition rough_estimate (text : string) : result Z := Ok (len text / 4)%Z.

Definition _get_token_count (tk : tiktoken) (model : string) : string -> result Z :=
  match encoding_for_model tk model with
  | Ok func => count_with func
  | Err _ =>
      match get_encoding tk "cl100k_base" with
      | Ok func => count_with func
      | Err _ => rough_estimate
      end
  end.

(** ** BatchPlanner *)

Record EmbeddingCreateParams : Type := {
  params_model : string;
  params_input : list string
}.

Record request : Type := {
  custom_id : string;
  method : string;
  url : string;
  body : EmbeddingCreateParams
}.

(** The bytes of a batch are the lines [b"\n".join] puts together, one
    request a line; no request is the empty payload [b""]. *)
Definition payload : Type := list request.

Definition str_of_nat (n : nat) : string :=
  NilEmpty.string_of_uint (Nat.to_uint n).

(** [lst[i : j]] *)
Definition slice {A} (lst : list A) (i j : nat) : list A :=
  firstn (j - i) (skipn i lst).

(** [for i in range(0, len(lst), chunk_size)], from offset [i] on; the
    step of the range is [Pos.to_nat chunk_size], since a range of step 0
    raises and the callers of this module leave the default 2048. *)
Fixpoint texts_from (fuel i : nat) (lst : list string) (chunk_size : positive)
  : list (nat * list string) :=
  match fuel with
  | O => []
  | S fuel' =>
      if (i <? List.length lst)%nat
      then (i, slice lst i (i + Pos.to_nat chunk_size))
             :: texts_from fuel' (i + Pos.to_nat chunk_size) lst chunk_size
      else []
  end.

Definition _texts_iterator (lst : list string) (chunk_size : positive)
  : list (nat * list string) :=
  texts_from (List.length lst) 0 lst chunk_size.

Definition make_custom_id (uuid : string) (batch_idx request_idx : nat) : string :=
  "batch_" ++ uuid ++ "_" ++ str_of_nat batch_idx ++ "_" ++ str_of_nat request_idx.

Definition _request_iterator (texts : list string) (model uuid : string)
  (batch_idx : nat) (chunk_size : positive) : payload :=
  map (fun '(request_idx, texts) =>
         {| custom_id := make_custom_id uuid batch_idx request_idx;
            method := "POST";
            url := "/v1/embeddings";
            body := {| params_model := model; params_input := texts |} |})
      (_texts_iterator texts chunk_size).

(** A generator that has run to its end: the values it yielded, in order,
    and the exception that ended it, if one did. *)
Definition generated (A : Type) : Type := (list A * option exn)%type.

Definition yield {A} (a : A) (g : generated A) : generated A :=
  (a :: fst g, snd g).

Definition nonempty {A} (l : list A) : bool :=
  match l with [] => false | _ => true end.

(** The loop of [_batch_iterator] over the texts still to come, with the
    local variables of the generator as arguments. *)
Fixpoint batch_loop (text2tokens : string -> result Z) (model uuid : string)
  (token_limit : Z) (chunk_size : positive)
  (texts : list string) (current_request : list string) (current_tokens : Z)
  (batch_idx : nat) : generated (nat * payload) :=
  match texts with
  | [] =>
      if nonempty current_request
      then yield (batch_idx,
                  _request_iterator current_request model uuid batch_idx chunk_size)
                 ([], None)
      else ([], None)
  | text :: rest =>
      match text2tokens text with
      | Err e => ([], Some e)
      | Ok tokens =>
          if (current_tokens + tokens >? token_limit)%Z
          then yield (batch_idx,
                      _request_iterator current_request model uuid batch_idx chunk_size)
                     (batch_loop text2tokens model uuid token_limit chunk_size
                        rest [text] tokens (S batch_idx))
          else batch_loop text2tokens model uuid token_limit chunk_size
                 rest (current_request ++ [text])%list (current_tokens + tokens)%Z batch_idx
      end
  end.

Definition default_chunk_size : positive := 2048.

Definition _batch_iterator (tk : tiktoken) (texts : list string) (model uuid : string)
  (token_limit : Z) (chunk_size : positive) : generated (nat * payload) :=
  batch_loop (_get_token_count tk model) model uuid token_limit chunk_size
    texts [] 0%Z 0.

(** ** The provider and the monad of the calls *)

Inductive job_status : Type :=
| validating | failed | in_progress | finalizing
| completed | expired | cancelling | cancelled.

Definition status_name (s : job_status) : string :=
  match s with
  | validating => "validating" | failed => "failed"
  | in_progress => "in_progress" | finalizing => "finalizing"
  | completed => "completed" | expired => "expired"
  | cancelling => "cancelling" | cancelled => "cancelled"
  end.

Record FileObject : Type := { file_id : string }.

Record Batch : Type := {
  batch_id : string;
  status : job_status;
  output_file_id : option string
}.

(** The text of an output file, as the lines that
    [output_content.strip().split("\n")] gives, each with what [json.loads]
    makes of it: [None] where [loads] raises. The empty text is [[]]. *)
Definition line : Type := option json.

Inductive event : Type :=
| Log (msg : string)
| LogException (e : exn)
| Sleep (seconds : Z)
| FilesCreate (name : string) (batch : payload)
| BatchesCreate (input_file_id endpoint completion_window : string)
| BatchesRetrieve (id : string)
| FilesContent (id : string)
| Post (url key : string) (texts : list string) (model : string).

(** What has happened so far, the latest event first. *)
Definition history : Type := list event.

(** The client of the provider: every call answers from the history of the
    run, with a value or with an exception. *)
Record OpenAI : Type := {
  files_create : history -> string -> payload -> result FileObject;
  batches_create : history -> string -> string -> string -> result Batch;
  batches_retrieve : history -> string -> result Batch;
  files_content : history -> string -> result (list line)
}.

(** The network: [OpenAI(api_key=key, base_url=url)] and, for the
    synchronous endpoint, [requests.post] followed by [raise_for_status]
    and [json]. *)
Record network : Type := {
  connect : string -> string -> OpenAI;
  requests_post : history -> string -> string -> list string -> string -> result json
}.

Inductive outcome (A : Type) : Type :=
| Ret (a : A)
| Raise (e : exn)
| Spin.
Arguments Ret {A} a.
Arguments Raise {A} e.
Arguments Spin {A}.

Definition M (A : Type) : Type := history -> outcome A * history.

Definition ret {A} (a : A) : M A := fun h => (Ret a, h).
Definition raise {A} (e : exn) : M A := fun h => (Raise e, h).
Definition spin {A} : M A := fun h => (Spin, h).

Definition bind {A B} (m : M A) (k : A -> M B) : M B :=
  fun h =>
    match m h with
    | (Ret a, h') => k a h'
    | (Raise e, h') => (Raise e, h')
    | (Spin, h') => (Spin, h')
    end.

Notation "x <- m ;; k" := (bind m (fun x => k))
  (at level 61, m at next level, right associativity).
Notation "m ;; k" := (bind m (fun _ => k))
  (at level 61, right associativity).

Definition emit (ev : event) : M unit := fun h => (Ret tt, ev :: h).

Definition lift {A} (r : result A) : M A :=
  match r with
  | Ok a => ret a
  | Err e => raise e
  end.

(** A call to the provider: it answers from the history before the call,
    and the call is recorded. *)
Definition call {A} (ev : event) (answer : history -> result A) : M A :=
  fun h => lift (answer h) (ev :: h).

(** [try: m  except Exception as e: handler(e)] *)
Definition try_except {A} (m : M A) (handler : exn -> M A) : M A :=
  fun h =>
    match m h with
    | (Raise e, h') => handler e h'
    | r => r
    end.

Fixpoint for_each {A B} (l : list A) (f : A -> M B) : M (list B) :=
  match l with
  | [] => ret []
  | a :: l' => b <- f a ;; bs <- for_each l' f ;; ret (b :: bs)
  end.

Definition _print_with_time (msg : string) : M unit := emit (Log msg).

(** ** tenacity *)

(** [wait_exponential(multiplier, min, max)] after the attempt
    [attempt_number] (the first attempt is 1). *)
Definition wait_exponential (multiplier min max : Z) (attempt_number : nat) : Z :=
  Z.max (Z.max 0 min) (Z.min (multiplier * 2 ^ (Z.of_nat attempt_number - 1)) max).

(** [@retry(stop=stop_after_attempt(n), wait=w)]: an attempt that raises
    any exception is followed, after a wait, by another one, until attempt
    [n] has raised; then [RetryError] is raised. [left] attempts are left
    after the attempt [attempt_number]. *)
Fixpoint retry_from {A} (wait : nat -> Z) (left attempt_number : nat) (f : M A) : M A :=
  fun h =>
    match f h with
    | (Raise e, h') =>
        match left with
        | O => (Raise (RetryError e), h')
        | S left' =>
            (emit (Sleep (wait attempt_number)) ;;
             retry_from wait left' (S attempt_number) f) h'
        end
    | r => r
    end.

Definition retry {A} (stop_after_attempt : nat) (wait : nat -> Z) (f : M A) : M A :=
  retry_from wait (stop_after_attempt - 1) 1 f.

(** ** ResultAssembler *)

Definition split_lines (output_content : list line) : list line :=
  match output_content with
  | [] => [None]      (* "".split("\n") is [""] *)
  | _ => output_content
  end.

Definition loads (l : line) : result json :=
  match l with
  | Some j => Ok j
  | None => Err JSONDecodeError
  end.

(** [sorted] compares the keys with [<]. The provider echoes the
    [custom_id] of the request, a [str], and the order of two [str] is the
    one modelled; a key of another type stops the model with [TypeError]
    (Python goes on to compare such keys and raises on keys of different
    types). *)
Definition str_key (k : json) : result string :=
  match k with
  | JStr s => Ok s
  | _ => Err TypeError
  end.

Definition itemgetter_custom_id (r : json) : result (string * json) :=
  rbind (getitem r "custom_id") (fun k =>
  rbind (str_key k) (fun s => Ok (s, r))).

(** [sorted(..., key=...)] is stable: of two records with equal keys the
    earlier one stays first. *)
Fixpoint insert_sorted {A} (x : string * A) (l : list (string * A)) : list (string * A) :=
  match l with
  | [] => [x]
  | y :: l' =>
      if String.ltb (fst y) (fst x) then y :: insert_sorted x l' else x :: y :: l'
  end.

Fixpoint sorted {A} (l : list (string * A)) : list (string * A) :=
  match l with
  | [] => []
  | x :: l' => insert_sorted x (sorted l')
  end.

(** [[data["embedding"] for data in result["response"]["body"]["data"]]] *)
Definition embeddings_of (r : json) : result (list json) :=
  rbind (getitem r "response") (fun response =>
  rbind (getitem response "body") (fun body =>
  rbind (getitem body "data") (fun data =>
  rbind (iterate data) (fun items =>
  rmap (fun data => getitem data "embedding") items)))).

Definition assemble (output_content : list line) : result (list json) :=
  rbind (rmap loads (split_lines output_content)) (fun raw_results =>
  rbind (rmap itemgetter_custom_id raw_results) (fun keyed =>
  let sorted_results := map snd (sorted keyed) in
  rbind (rmap embeddings_of sorted_results) (fun per_result =>
  Ok (List.concat per_result)))).

(** ** JobSubmitter/Poller *)

Definition terminal_failure (s : job_status) : bool :=
  match s with
  | failed | expired | cancelled => true
  | _ => false
  end.

Definition is_completed (s : job_status) : bool :=
  match s with
  | completed => true
  | _ => false
  end.

(** [output_file_id and status == "completed"]: [None] and [""] are false. *)
Definition ready (batch_status : Batch) : option string :=
  match output_file_id batch_status with
  | Some id => if negb (String.eqb id "") && is_completed (status batch_status)
               then Some id else None
  | None => None
  end.

(** The [while True] loop of [_process_one_batch], [fuel] polls long. *)
Fixpoint poll (fuel : nat) (client : OpenAI) (job_id : string) (wait_interval : Z)
  : M (list json) :=
  match fuel with
  | O => spin
  | S fuel' =>
      batch_status <- call (BatchesRetrieve job_id) (fun h => batches_retrieve client h job_id) ;;
      match ready batch_status with
      | Some id =>
          emit (Log "Batch Job Completed") ;;
          output_content <- call (FilesContent id) (fun h => files_content client h id) ;;
          lift (assemble output_content)
      | None =>
          if terminal_failure (status batch_status)
          then raise (RuntimeError ("Batch Job Failed: " ++ status_name (status batch_status)))
          else
            _print_with_time ("Batch Request Status: " ++ status_name (status batch_status)) ;;
            emit (Sleep wait_interval) ;;
            poll fuel' client job_id wait_interval
      end
  end.

(** The body of [_process_one_batch], one attempt. *)
Definition process_attempt (fuel : nat) (client : OpenAI) (uuid : string)
  (batch_idx : nat) (batch : payload) (completion_window : string)
  (wait_interval : Z) : M (list json) :=
  try_except
    (let name := "batch_" ++ uuid ++ "_" ++ str_of_nat batch_idx ++ ".jsonl" in
     input_file <- call (FilesCreate name batch)
                        (fun h => files_create client h name batch) ;;
     batch_job <- call (BatchesCreate (file_id input_file) "/v1/embeddings" completion_window)
                       (fun h => batches_create client h (file_id input_file)
                                   "/v1/embeddings" completion_window) ;;
     poll fuel client (batch_id batch_job) wait_interval)
    (fun e => emit (LogException e) ;; raise e).

Definition stop_after_attempt : nat := 5.

Definition _process_one_batch (fuel : nat) (client : OpenAI) (uuid : string)
  (batch_idx : nat) (batch : payload) (completion_window : string)
  (wait_interval : Z) : M (list json) :=
  retry stop_after_attempt (wait_exponential 1 4 10)
    (process_attempt fuel client uuid batch_idx batch completion_window wait_interval).

(** ** Orchestrator *)

(** [uuid] is the value of [uuid4().hex] in this run. *)
Definition _request_async_embedding (net : network) (tk : tiktoken) (uuid : string)
  (fuel : nat) (model : string) (texts : list string) (key url : string)
  (completion_window : string) (wait_interval : Z) (token_limit : Z)
  : M (list json) :=
  let client := connect net key url in
  let batches := _batch_iterator tk texts model uuid token_limit default_chunk_size in
  per_batch <- for_each (fst batches)
                 (fun '(batch_idx, batch) =>
                    _process_one_batch fuel client uuid batch_idx batch
                      completion_window wait_interval) ;;
  match snd batches with
  | Some e => raise e
  | None => ret (List.concat per_batch)
  end.

(** [key in obj] for a [str] key. *)
Definition contains (obj : json) (key : string) : result bool :=
  match obj with
  | JObj fields => Ok (match dict_get key fields with Some _ => true | None => false end)
  | JArr items =>
      Ok (existsb (fun x => match x with JStr s => String.eqb s key | _ => false end) items)
  | JStr s => Ok (match String.index 0 key s with Some _ => true | None => false end)
  | _ => Err TypeError
  end.

Definition sync_attempt (net : network) (url key : string) (texts : list string)
  (model : string) : M (list json) :=
  emit (Log "Using single processing for OpenAI embeddings") ;;
  data <- call (Post (url ++ "/embeddings") key texts model)
               (fun h => requests_post net h (url ++ "/embeddings") key texts model) ;;
  has_data <- lift (contains data "data") ;;
  if has_data : bool
  then lift (rbind (getitem data "data") (fun d =>
             rbind (iterate d) (fun items =>
             rmap (fun elem => getitem elem "embedding") items)))
  else emit (Log "error") ;; raise (PlainException "Something went wrong :/").

Definition _request_sync_embedding (net : network) (url key : string)
  (texts : list string) (model : string) : M (list json) :=
  retry stop_after_attempt (wait_exponential 1 4 10) (sync_attempt net url key texts model).

Definition text_length (texts : list string) : Z :=
  fold_right Z.add 0%Z (map len texts).

Definition generate_openai_batch_embeddings (net : network) (tk : tiktoken)
  (uuid : string) (fuel : nat) (model : string) (texts : list string)
  (key url : string) : M (option (list json)) :=
  try_except
    (emit (Log "len(texts) / sum(len(text) for text in texts)") ;;
     if (text_length texts <? 500000)%Z
     then
       emit (Log "Using single processing for OpenAI embeddings") ;;
       r <- _request_sync_embedding net url key texts model ;;
       ret (Some r)
     else
       emit (Log "Using batch processing for OpenAI embeddings") ;;
       r <- _request_async_embedding net tk uuid fuel model texts key url
              "24h" 60%Z 1000000%Z ;;
       ret (Some r))
    (fun e => emit (LogException e) ;; ret None).

(** * Concrete inputs *)

(** ** Tokenizers *)

(** No lookup works, as for a tokenizer that cannot be loaded. *)
Definition no_tiktoken : tiktoken :=
  {| encoding_for_model := fun _ => Err (KeyError "model");
     get_encoding := fun _ => Err (ProviderError "cl100k_base") |}.

Fixpoint bytes_of (text : string) : list Z :=
  match text with
  | EmptyString => []
  | String c rest => Z.of_nat (nat_of_ascii c) :: bytes_of rest
  end.

(** An encoding of one token a character that, like the encodings of
    tiktoken called with its defaults, refuses a text that holds the
    special token. *)
Definition strict_encoding : Encoding :=
  {| encode := fun text =>
       match String.index 0 "<|endoftext|>" text with
       | Some _ => Err (ValueError "disallowed special token")
       | None => Ok (bytes_of text)
       end |}.

Definition strict_tiktoken : tiktoken :=
  {| encoding_for_model := fun _ => Ok strict_encoding;
     get_encoding := fun _ => Ok strict_encoding |}.

(** ** Planner *)

(** The texts of a batch, read back from its payload. *)
Definition payload_texts (batch : payload) : list string :=
  List.concat (map (fun r => params_input (body r)) batch).

(** The aggregate token count of some texts, with the counter [text2tokens]. *)
Fixpoint aggregate (text2tokens : string -> result Z) (texts : list string) : result Z :=
  match texts with
  | [] => Ok 0%Z
  | text :: rest =>
      rbind (text2tokens text) (fun tokens =>
      rbind (aggregate text2tokens rest) (fun total => Ok (tokens + total)%Z))
  end.

(** A batch within the limit, or of one text that is over it by itself. *)
Definition within_budget (text2tokens : string -> result Z) (token_limit : Z)
  (texts : list string) : Prop :=
  (exists total, aggregate text2tokens texts = Ok total /\ (total <= token_limit)%Z)
  \/ (exists text tokens,
        texts = [text] /\ text2tokens text = Ok tokens /\ (token_limit < tokens)%Z).

(** What the loop of [_batch_iterator] keeps true of its local variables. *)
Definition loop_invariant (text2tokens : string -> result Z) (token_limit : Z)
  (current_request : list string) (current_tokens : Z) : Prop :=
  (aggregate text2tokens current_request = Ok current_tokens
   /\ (current_tokens <= token_limit)%Z)
  \/ (exists text, current_request = [text]
        /\ text2tokens text = Ok current_tokens
        /\ (token_limit < current_tokens)%Z).

(** One text of 16 characters, 4 tokens by the heuristic. *)
Definition one_long_text : list string := ["aaaaaaaaaaaaaaaa"].

(** ** A provider that does what is expected of it *)

(** The record the provider writes for one request: the [custom_id] of the
    request and one embedding a text, in the order of the texts. *)
Definition answer (embed : string -> json) (r : request) : json :=
  JObj [("custom_id", JStr (custom_id r));
        ("response",
         JObj [("status_code", JNum "200");
               ("body",
                JObj [("object", JStr "list");
                      ("data",
                       JArr (map (fun text => JObj [("object", JStr "embedding");
                                                    ("embedding", embed text)])
                                 (params_input (body r))))])])].

Fixpoint last_upload (h : history) : payload :=
  match h with
  | [] => []
  | FilesCreate _ batch :: _ => batch
  | _ :: h' => last_upload h'
  end.

(** Every job is complete at the first poll, and the output file has the
    records in the order of the requests of the file uploaded last. *)
Definition prompt_client (embed : string -> json) : OpenAI :=
  {| files_create := fun _ _ _ => Ok {| file_id := "file-in" |};
     batches_create := fun _ _ _ _ =>
       Ok {| batch_id := "job"; status := validating; output_file_id := None |};
     batches_retrieve := fun _ _ =>
       Ok {| batch_id := "job"; status := completed; output_file_id := Some "file-out" |};
     files_content := fun h _ => Ok (map (fun r => Some (answer embed r)) (last_upload h)) |}.

Definition sync_answer (embed : string -> json) (texts : list string) : json :=
  JObj [("object", JStr "list");
        ("data", JArr (map (fun text => JObj [("embedding", embed text)]) texts))].

Definition prompt_network (embed : string -> json) : network :=
  {| connect := fun _ _ => prompt_client embed;
     requests_post := fun _ _ _ texts _ => Ok (sync_answer embed texts) |}.

(** An embedding that tells which text it is of. *)
Definition tagged (text : string) : json := JArr [JStr text].

(** The texts "0", "1", ..., one token each by [strict_encoding] up to "9". *)
Definition numbered_texts (n : nat) : list string := map str_of_nat (seq 0 n).

(** Five chunks of 2048 texts and one text more. *)
Definition many_texts : list string := numbered_texts (5 * 2048 + 1).

(** The [custom_id] of every chunk of a batch, with the offset of the chunk. *)
Definition chunk_ids (texts : list string) (uuid : string) (batch_idx : nat)
  (chunk_size : positive) : list (string * nat) :=
  map (fun '(request_idx, _) => (make_custom_id uuid batch_idx request_idx, request_idx))
      (_texts_iterator texts chunk_size).

(** The five sentences of the test of the module. *)
Definition five_sentences : list string :=
  ["This is the first test sentence.";
   "Here's another sentence for testing.";
   "And one more to make sure everything works.";
   "Let's add a fourth sentence for good measure.";
   "Finally, a fifth sentence to really test the batch processing."].

(** A run of the asynchronous path with the defaults of
    [_request_async_embedding], against the prompt provider. *)
Definition async_run (tk : tiktoken) (texts : list string) : outcome (list json) :=
  fst (_request_async_embedding (prompt_network tagged) tk "u" 1 "m" texts
         "key" "https://api.openai.com/v1" "24h" 60%Z 1000000%Z []).

(** ** Observations of a run *)

Definition uploads (h : history) : nat :=
  List.length (filter (fun ev => match ev with FilesCreate _ _ => true | _ => false end) h).

Definition polls (h : history) : nat :=
  List.length (filter (fun ev => match ev with BatchesRetrieve _ => true | _ => false end) h).

Definition sleeps (h : history) : nat :=
  List.length (filter (fun ev => match ev with Sleep _ => true | _ => false end) h).

(** Assumptions on a client. *)
Definition accepts_uploads (client : OpenAI) : Prop :=
  forall h name batch, exists f, files_create client h name batch = Ok f.

Definition accepts_jobs (client : OpenAI) : Prop :=
  forall h input_file_id endpoint window,
    exists job, batches_create client h input_file_id endpoint window = Ok job.

Definition always_reports (client : OpenAI) (P : Batch -> Prop) : Prop :=
  forall h id, exists b, batches_retrieve client h id = Ok b /\ P b.

(** ** Clients for the poller *)

(** Every job stays "completed" without an output file. *)
Definition stuck_client : OpenAI :=
  {| files_create := fun _ _ _ => Ok {| file_id := "file-in" |};
     batches_create := fun _ _ _ _ =>
       Ok {| batch_id := "job"; status := validating; output_file_id := None |};
     batches_retrieve := fun _ _ =>
       Ok {| batch_id := "job"; status := completed; output_file_id := None |};
     files_content := fun _ _ => Err (ProviderError "no such file") |}.

(** Every job expires. *)
Definition expiring_client : OpenAI :=
  {| files_create := fun _ _ _ => Ok {| file_id := "file-in" |};
     batches_create := fun _ _ _ _ =>
       Ok {| batch_id := "job"; status := validating; output_file_id := None |};
     batches_retrieve := fun _ _ =>
       Ok {| batch_id := "job"; status := expired; output_file_id := None |};
     files_content := fun _ _ => Err (ProviderError "no such file") |}.


(** The batch of one text. *)
Definition one_text_batch : payload :=
  _request_iterator ["hello"] "m" "u" 0 default_chunk_size.

(** ** Result records *)

(** A well-formed line of an output file: a [custom_id] and the embeddings
    of one chunk. *)
Definition record (r : string * list json) : json :=
  JObj [("custom_id", JStr (fst r));
        ("response",
         JObj [("body",
                JObj [("data", JArr (map (fun e => JObj [("embedding", e)]) (snd r)))])])].

(** A line that parses to an object without the field [custom_id]. *)
Definition lacks_custom_id (l : line) : Prop :=
  exists fields, l = Some (JObj fields) /\ dict_get "custom_id" fields = None.

(** The output file holds one record, of a [custom_id] of another run. *)
Definition foreign_client : OpenAI :=
  {| files_create := fun _ _ _ => Ok {| file_id := "file-in" |};
     batches_create := fun _ _ _ _ =>
       Ok {| batch_id := "job"; status := validating; output_file_id := None |};
     batches_retrieve := fun _ _ =>
       Ok {| batch_id := "job"; status := completed; output_file_id := Some "file-out" |};
     files_content := fun _ _ =>
       Ok [Some (record ("batch_0123abcd_7_0", [tagged "something else"]))] |}.

(** ** The top level *)

(** What the handler of [generate_openai_batch_embeddings] makes of the
    outcome of a path. *)
Definition caught (r : outcome (list json) * history)
  : outcome (option (list json)) * history :=
  match r with
  | (Ret embeddings, h) => (Ret (Some embeddings), h)
  | (Raise e, h) => (Ret None, LogException e :: h)
  | (Spin, h) => (Spin, h)
  end.

Definition logged_sync (h : history) : history :=
  Log "Using single processing for OpenAI embeddings"
    :: Log "len(texts) / sum(len(text) for text in texts)" :: h.

Definition logged_async (h : history) : history :=
  Log "Using batch processing for OpenAI embeddings"
    :: Log "len(texts) / sum(len(text) for text in texts)" :: h.

(** [f] runs on the items one after the other, each from the history the
    one before left, and every run returns. *)
Inductive runs_in_order {A B} (f : A -> M B)
  : list A -> history -> list B -> history -> Prop :=
| runs_none (h : history) : runs_in_order f [] h [] h
| runs_next (a : A) (l : list A) (h h1 h2 : history) (b : B) (bs : list B) :
    f a h = (Ret b, h1) ->
    runs_in_order f l h1 bs h2 ->
    runs_in_order f (a :: l) h (b :: bs) h2.

(** [_process_one_batch] as the list comprehension of
    [_request_async_embedding] calls it. *)
Definition process_batch (net : network) (uuid : string) (fuel : nat)
  (key url completion_window : string) (wait_interval : Z)
  (indexed : nat * payload) : M (list json) :=
  _process_one_batch fuel (connect net key url) uuid (fst indexed) (snd indexed)
    completion_window wait_interval.

(** A text of 500000 characters. *)
Definition long_text : string :=
  string_of_list_ascii (repeat "a"%char (Z.to_nat 500000)).

(** Three texts of two tokens each by the heuristic. *)
Definition three_texts : list string := ["aaaaaaaa"; "bbbbbbbb"; "cccccccc"].

(** The job of the first upload completes; the jobs of the later ones
    expire. *)
Definition tiring_client (embed : string -> json) : OpenAI :=
  {| files_create := fun _ _ _ => Ok {| file_id := "file-in" |};
     batches_create := fun _ _ _ _ =>
       Ok {| batch_id := "job"; status := validating; output_file_id := None |};
     batches_retrieve := fun h _ =>
       if (uploads h <=? 1)%nat
       then Ok {| batch_id := "job"; status := completed; output_file_id := Some "file-out" |}
       else Ok {| batch_id := "job"; status := expired; output_file_id := None |};
     files_content := fun h _ => Ok (map (fun r => Some (answer embed r)) (last_upload h)) |}.

Definition tiring_network (embed : string -> json) : network :=
  {| connect := fun _ _ => tiring_client embed;
     requests_post := fun _ _ _ _ _ => Err (ProviderError "503") |}.

(** The plan for [three_texts] under a limit of 3 tokens: a batch a text. *)
Definition three_batches : list (nat * payload) :=
  fst (_batch_iterator no_tiktoken three_texts "m" "u" 3 default_chunk_size).

(** ** Characters of a string *)

Fixpoint has_char (c : ascii) (s : string) : bool :=
  match s with
  | EmptyString => false
  | String c' s' => Ascii.eqb c' c || has_char c s'
  end.

(** The texts of the batches of a plan, batch after batch. *)
Definition plan_texts (plan : list (nat * payload)) : list string :=
  List.concat (map (fun indexed => payload_texts (snd indexed)) plan).

(** ** The order of the sort *)

Definition key_lt {A} (a b : string * A) : Prop := String.ltb (fst a) (fst b) = true.

Definition key_le {A} (a b : string * A) : Prop := String.ltb (fst b) (fst a) = false.

(** The [custom_id]s of the requests of a batch go up, as strings. *)
Definition ids_ascend (batch : payload) : Prop :=
  StronglySorted (fun a b => String.ltb (custom_id a) (custom_id b) = true) batch.

Definition keyed (batch : payload) : list (string * request) :=
  map (fun r => (custom_id r, r)) batch.

(** ** Jobs that take their time *)

(** [n] polls in a row, from the history [h] on, find the job neither
    complete with an output file nor failed; every one of them is followed
    by the log of the status and the sleep of the loop, which leaves the
    history [h']. *)
Inductive pending_polls (client : OpenAI) (job_id : string) (wait_interval : Z)
  : nat -> history -> history -> Prop :=
| pending_none (h : history) : pending_polls client job_id wait_interval 0 h h
| pending_more (n : nat) (h h' : history) (b : Batch) :
    batches_retrieve client h job_id = Ok b ->
    ready b = None ->
    terminal_failure (status b) = false ->
    pending_polls client job_id wait_interval n
      (Sleep wait_interval
         :: Log ("Batch Request Status: " ++ status_name (status b))
         :: BatchesRetrieve job_id :: h) h' ->
    pending_polls client job_id wait_interval (S n) h h'.

(** What the loop returns when the output file holds [output_content]. *)
Definition assembled (output_content : list line) (h : history)
  : outcome (list json) * history :=
  match assemble output_content with
  | Ok embeddings => (Ret embeddings, h)
  | Err e => (Raise e, h)
  end.

(** Every job of the provider is complete, with an output file, after at
    most [bound] polls that find it pending. *)
Definition completes_within (client : OpenAI) (wait_interval : Z) (bound : nat) : Prop :=
  forall h job_id,
    exists n h' b id,
      n <= bound
      /\ pending_polls client job_id wait_interval n h h'
      /\ batches_retrieve client h' job_id = Ok b
      /\ ready b = Some id.

(** The output file of a job has the records of the requests of the file
    uploaded last, one a request, in some order of the lines. *)
Definition answers_every_request (client : OpenAI) (embed : string -> json) : Prop :=
  forall h id,
    exists output_content,
      files_content client h id = Ok output_content
      /\ Permutation output_content
           (map (fun r => Some (answer embed r)) (last_upload h)).

(** A job is "validating" at its first poll, "in_progress" at the second
    and complete at the third; the output file has the records in the
    reverse order of the requests. *)
Definition slow_client (embed : string -> json) : OpenAI :=
  {| files_create := fun _ _ _ => Ok {| file_id := "file-in" |};
     batches_create := fun _ _ _ _ =>
       Ok {| batch_id := "job"; status := validating; output_file_id := None |};
     batches_retrieve := fun h _ =>
       match polls h mod 3 with
       | 0 => Ok {| batch_id := "job"; status := validating; output_file_id := None |}
       | 1 => Ok {| batch_id := "job"; status := in_progress; output_file_id := None |}
       | _ => Ok {| batch_id := "job"; status := completed;
                    output_file_id := Some "file-out" |}
       end;
     files_content := fun h _ =>
       Ok (rev (map (fun r => Some (answer embed r)) (last_upload h))) |}.

Definition slow_network (embed : string -> json) : network :=
  {| connect := fun _ _ => slow_client embed;
     requests_post := fun _ _ _ texts _ => Ok (sync_answer embed texts) |}.

(** The history after the upload of the batch of one text and after two
    polls of [slow_client] that found the job pending. *)
Definition after_upload : history :=
  [BatchesCreate "file-in" "/v1/embeddings" "24h";
   FilesCreate "batch_u_0.jsonl" one_text_batch].

Definition after_two_polls : history :=
  [Sleep 30; Log "Batch Request Status: in_progress"; BatchesRetrieve "job";
   Sleep 30; Log "Batch Request Status: validating"; BatchesRetrieve "job";
   BatchesCreate "file-in" "/v1/embeddings" "24h";
   FilesCreate "batch_u_0.jsonl" one_text_batch].

(** ** The synchronous endpoint *)

Definition posts (h : history) : nat :=
  List.length (filter (fun ev => match ev with Post _ _ _ _ => true | _ => false end) h).

(** Every answer of the endpoint is an object without the field "data",
    as an error object is. *)
Definition answers_without_data (net : network) : Prop :=
  forall h url key texts model,
    exists fields,
      requests_post net h url key texts model = Ok (JObj fields)
      /\ dict_get "data" fields = None.

Definition refusing_network : network :=
  {| connect := fun _ _ => expiring_client;
     requests_post := fun _ _ _ _ _ =>
       Ok (JObj [("error", JObj [("message", JStr "Incorrect API key provided")])]) |}.

(** The endpoint answers every request with one embedding a text, in the
    order of the texts. *)
Definition answers_every_text (net : network) (embed : string -> json) : Prop :=
  forall h url key texts model,
    requests_post net h url key texts model = Ok (sync_answer embed texts).

(** A record of a request the provider could not serve: a response whose
    body has an error and no "data". *)
Definition error_record (id : string) : json :=
  JObj [("custom_id", JStr id);
        ("response",
         JObj [("status_code", JNum "400");
               ("body", JObj [("error", JObj [("message", JStr "invalid input")])])])].

(** ** Uploads that fail for a while *)

(** The uploads of a provider fail until [threshold] uploads have been
    tried, and work from then on. *)
Definition uploads_fail_until (client : OpenAI) (threshold : nat) : Prop :=
  (forall h name batch, uploads h < threshold ->
     exists e, files_create client h name batch = Err e)
  /\ (forall h name batch, threshold <= uploads h ->
        exists f, files_create client h name batch = Ok f).

(** The provider of [prompt_client], with uploads that fail until
    [threshold] of them have been tried. *)
Definition flaky_client (threshold : nat) (embed : string -> json) : OpenAI :=
  {| files_create := fun h _ _ =>
       if (uploads h <? threshold)%nat
       then Err (ProviderError "connection reset")
       else Ok {| file_id := "file-in" |};
     batches_create := batches_create (prompt_client embed);
     batches_retrieve := batches_retrieve (prompt_client embed);
     files_content := files_content (prompt_client embed) |}.

(** * Properties *)

(** ** TokenCounter *)

Lemma count_with_nonneg (func : Encoding) (text : string) (n : Z) :
  count_with func text = Ok n -> (0 <= n)%Z.
Proof.
  unfold count_with.
  destruct (encode func text) as [toks | e]; simpl; intros H.
  - injection H as <-. apply Zle_0_nat.
  - discriminate.
Qed.

Lemma rough_estimate_nonneg (text : string) : (0 <= len text / 4)%Z.
Proof.
  apply Z.div_pos; [unfold len; apply Zle_0_nat | lia].
Qed.

(** C9, as the claim states it, fails: the counter built on an encoding
    raises when the encoding refuses the text. *)
Lemma token_count_can_raise :
  _get_token_count strict_tiktoken "text-embedding-3-small" "<|endoftext|>"
  = Err (ValueError "disallowed special token")
  /\ ~ (forall tk model text, exists n : Z, _get_token_count tk model text = Ok n).
Proof.
  split; [reflexivity |].
  intros H.
  destruct (H strict_tiktoken "text-embedding-3-small" "<|endoftext|>") as [n Hn].
  vm_compute in Hn. discriminate.
Qed.

(** C9, amended: for every model name [_get_token_count] gives a counter
    without raising: the counter of the model's encoding if that lookup
    works, else the counter of the generic encoding if that one works, else
    the heuristic, which on every text gives [len(text) / 4] rounded down.
    A count that is returned is never negative; a counter built on an
    encoding returns the number of tokens when [encode] returns and raises
    when [encode] raises. *)
Theorem token_count_fallbacks (tk : tiktoken) (model text : string) :
  (forall func, encoding_for_model tk model = Ok func ->
     _get_token_count tk model text = count_with func text)
  /\ (forall e func, encoding_for_model tk model = Err e ->
        get_encoding tk "cl100k_base" = Ok func ->
        _get_token_count tk model text = count_with func text)
  /\ (forall e e', encoding_for_model tk model = Err e ->
        get_encoding tk "cl100k_base" = Err e' ->
        _get_token_count tk model text = Ok (len text / 4)%Z)
  /\ (forall n, _get_token_count tk model text = Ok n -> (0 <= n)%Z)
  /\ (forall func toks, encode func text = Ok toks ->
        count_with func text = Ok (Z.of_nat (List.length toks)))
  /\ (forall func e, encode func text = Err e -> count_with func text = Err e).
Proof.
  unfold _get_token_count.
  repeat split.
  - intros func ->. reflexivity.
  - intros e func -> ->. reflexivity.
  - intros e e' -> ->. reflexivity.
  - intros n.
    destruct (encoding_for_model tk model) as [func | e].
    + apply count_with_nonneg.
    + destruct (get_encoding tk "cl100k_base") as [func | e'].
      * apply count_with_nonneg.
      * unfold rough_estimate. intros H. injection H as <-.
        apply rough_estimate_nonneg.
  - intros func toks H. unfold count_with. rewrite H. reflexivity.
  - intros func e H. unfold count_with. rewrite H. reflexivity.
Qed.

Lemma token_count_fallbacks_witness :
  _get_token_count no_tiktoken "no-such-model" "abcdefghi" = Ok 2%Z
  /\ _get_token_count strict_tiktoken "text-embedding-3-small" "abc" = Ok 3%Z
  /\ (0 <= 2)%Z.
Proof.
  destruct (token_count_fallbacks no_tiktoken "no-such-model" "abcdefghi")
    as (_ & _ & Hrough & Hpos & _).
  destruct (token_count_fallbacks strict_tiktoken "text-embedding-3-small" "abc")
    as (Hmodel & _ & _ & _ & Henc & _).
  split; [| split].
  - apply (Hrough (KeyError "model") (ProviderError "cl100k_base")); reflexivity.
  - rewrite (Hmodel strict_encoding eq_refl).
    apply (Henc strict_encoding [97; 98; 99]%Z). reflexivity.
  - apply Hpos.
    apply (Hrough (KeyError "model") (ProviderError "cl100k_base")); reflexivity.
Defined.

(** ** BatchPlanner *)

Section Chunks.

Variables (model uuid : string) (chunk_size : positive).

Lemma texts_from_concat (lst : list string) (fuel i : nat) :
  List.length lst - i <= fuel ->
  List.concat (map snd (texts_from fuel i lst chunk_size)) = skipn i lst.
Proof.
  revert i.
  induction fuel as [| fuel IH]; intros i Hfuel; simpl.
  - symmetry. apply skipn_all2. lia.
  - destruct (Nat.ltb_spec i (List.length lst)) as [Hlt | Hge].
    + simpl. rewrite IH by lia.
      unfold slice.
      replace (i + Pos.to_nat chunk_size - i) with (Pos.to_nat chunk_size) by lia.
      rewrite (Nat.add_comm i), <- skipn_skipn.
      apply firstn_skipn.
    + symmetry. apply skipn_all2. lia.
Qed.

(** Chunking loses no text and keeps the order. *)
Lemma request_iterator_texts (texts : list string) (batch_idx : nat) :
  payload_texts (_request_iterator texts model uuid batch_idx chunk_size) = texts.
Proof.
  unfold payload_texts, _request_iterator, _texts_iterator.
  rewrite map_map.
  transitivity (List.concat (map snd (texts_from (List.length texts) 0 texts chunk_size))).
  - f_equal. apply map_ext. intros [request_idx chunk]. reflexivity.
  - apply (texts_from_concat texts (List.length texts) 0). lia.
Qed.

End Chunks.

Lemma aggregate_snoc (text2tokens : string -> result Z) (texts : list string)
  (text : string) (total tokens : Z) :
  aggregate text2tokens texts = Ok total ->
  text2tokens text = Ok tokens ->
  aggregate text2tokens (texts ++ [text])%list = Ok (total + tokens)%Z.
Proof.
  revert total.
  induction texts as [| t texts IH]; simpl; intros total Hagg Htok.
  - injection Hagg as <-. rewrite Htok. simpl. f_equal. lia.
  - destruct (text2tokens t) as [c | e]; simpl in *; [| discriminate].
    destruct (aggregate text2tokens texts) as [s | e]; simpl in *; [| discriminate].
    injection Hagg as <-.
    rewrite (IH s eq_refl Htok). simpl. f_equal. lia.
Qed.

Section Planner.

Variables (text2tokens : string -> result Z) (model uuid : string).
Variables (token_limit : Z) (chunk_size : positive).

Lemma loop_invariant_budget (current_request : list string) (current_tokens : Z) :
  loop_invariant text2tokens token_limit current_request current_tokens ->
  within_budget text2tokens token_limit current_request.
Proof.
  intros [[Hagg Hle] | (text & -> & Htok & Hlt)].
  - left. exists current_tokens. split; assumption.
  - right. exists text, current_tokens. repeat split; assumption.
Qed.

Lemma batch_loop_budget (texts current_request : list string)
  (current_tokens : Z) (first_idx batch_idx : nat) (batch : payload) :
  loop_invariant text2tokens token_limit current_request current_tokens ->
  In (batch_idx, batch)
     (fst (batch_loop text2tokens model uuid token_limit chunk_size
             texts current_request current_tokens first_idx)) ->
  within_budget text2tokens token_limit (payload_texts batch).
Proof.
  revert current_request current_tokens first_idx.
  induction texts as [| text rest IH];
    intros current_request current_tokens first_idx Hinv Hin; simpl in Hin.
  - destruct (nonempty current_request); simpl in Hin; [| contradiction].
    destruct Hin as [Heq | []]. injection Heq as _ <-.
    rewrite request_iterator_texts. apply (loop_invariant_budget _ _ Hinv).
  - destruct (text2tokens text) as [tokens | e] eqn:Htok; [| contradiction].
    destruct (Z.gtb_spec (current_tokens + tokens) token_limit) as [Hover | Hfits].
    + simpl in Hin. destruct Hin as [Heq | Hin].
      * injection Heq as _ <-.
        rewrite request_iterator_texts. apply (loop_invariant_budget _ _ Hinv).
      * apply (IH [text] tokens (S first_idx)); [| exact Hin].
        destruct (Z_le_gt_dec tokens token_limit) as [Hle | Hgt].
        -- left. simpl. rewrite Htok. simpl. split; [f_equal; lia | exact Hle].
        -- right. exists text. repeat split; [exact Htok | lia].
    + apply (IH (current_request ++ [text])%list (current_tokens + tokens)%Z first_idx);
        [| exact Hin].
      destruct Hinv as [[Hagg Hle] | (t & -> & Ht & Hlt)].
      * left. split; [apply aggregate_snoc; assumption | exact Hfits].
      * left. split; [| exact Hfits].
        simpl. rewrite Ht, Htok. simpl. f_equal. lia.
Qed.

(** A first text over the limit closes the batch that is still empty. *)
Lemma first_text_over_limit (text : string) (rest : list string) (tokens : Z) :
  text2tokens text = Ok tokens ->
  (token_limit < tokens)%Z ->
  exists later,
    fst (batch_loop text2tokens model uuid token_limit chunk_size
           (text :: rest) [] 0%Z 0) = (0, []) :: later.
Proof.
  intros Htok Hlt. simpl. rewrite Htok.
  replace (tokens >? token_limit)%Z with true
    by (symmetry; apply Z.gtb_lt; exact Hlt).
  simpl. eexists. reflexivity.
Qed.

End Planner.

(** C5: with a token limit that is not negative, every batch that
    [_batch_iterator] yields has an aggregate token count, by the counter
    of the model, that is at most [token_limit], or is made of exactly one
    text whose own count is over [token_limit]. *)
Theorem batch_within_token_limit (tk : tiktoken) (texts : list string)
  (model uuid : string) (token_limit : Z) (chunk_size : positive)
  (batch_idx : nat) (batch : payload) :
  (0 <= token_limit)%Z ->
  In (batch_idx, batch)
     (fst (_batch_iterator tk texts model uuid token_limit chunk_size)) ->
  within_budget (_get_token_count tk model) token_limit (payload_texts batch).
Proof.
  intros Hlimit Hin.
  apply (batch_loop_budget (_get_token_count tk model) model uuid token_limit
           chunk_size texts [] 0%Z 0 batch_idx batch); [| exact Hin].
  left. split; [reflexivity | exact Hlimit].
Qed.

Lemma batch_within_token_limit_witness :
  within_budget (_get_token_count no_tiktoken "m") 3
    (payload_texts
       [{| custom_id := "batch_u_1_0"; method := "POST"; url := "/v1/embeddings";
           body := {| params_model := "m"; params_input := one_long_text |} |}]).
Proof.
  apply (batch_within_token_limit no_tiktoken one_long_text "m" "u" 3
           default_chunk_size 1).
  - lia.
  - vm_compute. right. left. reflexivity.
Defined.

(** C4 fails on the code: the first text alone is over the limit, and the
    generator yields batch 0 with the empty payload before the batch of the
    text. *)
Theorem first_batch_can_be_empty :
  _batch_iterator no_tiktoken one_long_text "m" "u" 3 default_chunk_size
  = ([(0, []);
      (1, [{| custom_id := "batch_u_1_0"; method := "POST"; url := "/v1/embeddings";
              body := {| params_model := "m"; params_input := one_long_text |} |}])],
     None).
Proof. vm_compute. reflexivity. Qed.

(** ** The order of the custom_id strings *)

Lemma ascii_compare_refl (c : ascii) : Ascii.compare c c = Eq.
Proof. unfold Ascii.compare. apply N.compare_refl. Qed.

Lemma compare_prefix (p a b : string) :
  String.compare (p ++ a) (p ++ b) = String.compare a b.
Proof.
  induction p as [| c p IH]; simpl; [reflexivity |].
  rewrite ascii_compare_refl. exact IH.
Qed.

Lemma ltb_prefix (p a b : string) :
  String.ltb (p ++ a) (p ++ b) = String.ltb a b.
Proof. unfold String.ltb. rewrite compare_prefix. reflexivity. Qed.

Lemma custom_id_order (uuid : string) (batch_idx i j : nat) :
  String.ltb (make_custom_id uuid batch_idx i) (make_custom_id uuid batch_idx j)
  = String.ltb (str_of_nat i) (str_of_nat j).
Proof.
  unfold make_custom_id.
  rewrite !ltb_prefix. reflexivity.
Qed.

(** C2 fails on the code: in a batch of 10241 texts the chunks start at
    0, 2048, ..., 8192, 10240, and for every run id and batch the
    [custom_id] of the chunk at 10240 is below the one of the chunk at 2048
    as a string; sorted by [custom_id], the chunks come in the order
    0, 10240, 2048, 4096, 6144, 8192. *)
Theorem custom_id_sort_breaks_chunk_order :
  (forall uuid batch_idx,
     map snd (chunk_ids many_texts uuid batch_idx default_chunk_size)
     = [0; 2048; 2 * 2048; 3 * 2048; 4 * 2048; 5 * 2048]
     /\ String.ltb (make_custom_id uuid batch_idx (5 * 2048))
                   (make_custom_id uuid batch_idx 2048) = true)
  /\ map snd (sorted (chunk_ids many_texts "u" 0 default_chunk_size))
     = [0; 5 * 2048; 2048; 2 * 2048; 3 * 2048; 4 * 2048]
  /\ String.ltb (make_custom_id "u" 10 0) (make_custom_id "u" 2 0) = true.
Proof.
  split; [| split].
  - intros uuid batch_idx. split.
    + unfold chunk_ids. rewrite map_map.
      transitivity (map fst (_texts_iterator many_texts default_chunk_size)).
      * apply map_ext. intros [request_idx chunk]. reflexivity.
      * vm_compute. reflexivity.
    + rewrite custom_id_order. vm_compute. reflexivity.
  - vm_compute. reflexivity.
  - vm_compute. reflexivity.
Qed.

(** ** The asynchronous path, end to end *)

(** The test of the module: five sentences, five embeddings in order. *)
Lemma async_run_five_sentences :
  async_run no_tiktoken five_sentences = Ret (map tagged five_sentences).
Proof. vm_compute. reflexivity. Qed.

(** C1 fails on the code: 10241 short texts make one batch of six chunks;
    the provider answers every chunk with one embedding a text, in order,
    and the list returned has the embeddings of the last chunk (text 10240)
    right after those of the first chunk: position 2048 holds the embedding
    of text 10240, not of text 2048. *)
Theorem async_embeddings_out_of_order :
  exists embeddings,
    async_run no_tiktoken many_texts = Ret embeddings
    /\ embeddings = map tagged (firstn 2048 many_texts
                                ++ skipn (5 * 2048) many_texts
                                ++ firstn (4 * 2048) (skipn 2048 many_texts))%list
    /\ List.length embeddings = List.length many_texts
    /\ nth_error many_texts 2048 = Some "2048"
    /\ nth_error embeddings 2048 = Some (tagged "10240").
Proof.
  exists (map tagged (firstn 2048 many_texts
                      ++ skipn (5 * 2048) many_texts
                      ++ firstn (4 * 2048) (skipn 2048 many_texts))%list).
  split; [vm_compute; reflexivity |].
  split; [reflexivity |].
  split; [vm_compute; reflexivity |].
  split; vm_compute; reflexivity.
Qed.

(** ** JobSubmitter/Poller *)

Lemma retry_from_not_raised {A} (wait : nat -> Z) (left attempt_number : nat)
  (f : M A) (h h' : history) (r : outcome A) :
  f h = (r, h') ->
  (forall e, r <> Raise e) ->
  retry_from wait left attempt_number f h = (r, h').
Proof.
  intros Hf Hr.
  destruct left; simpl; rewrite Hf; destruct r; try reflexivity;
    exfalso; apply (Hr e); reflexivity.
Qed.

Lemma retry_from_raised {A} (wait : nat -> Z) (left attempt_number : nat)
  (f : M A) (h h' : history) (e : exn) :
  f h = (Raise e, h') ->
  retry_from wait (S left) attempt_number f h
  = retry_from wait left (S attempt_number) f (Sleep (wait attempt_number) :: h').
Proof. intros Hf. simpl. rewrite Hf. reflexivity. Qed.

Lemma retry_from_last_raised {A} (wait : nat -> Z) (attempt_number : nat)
  (f : M A) (h h' : history) (e : exn) :
  f h = (Raise e, h') ->
  retry_from wait 0 attempt_number f h = (Raise (RetryError e), h').
Proof. intros Hf. simpl. rewrite Hf. reflexivity. Qed.

Section Poller.

Variables (client : OpenAI) (uuid : string) (batch_idx : nat) (batch : payload).
Variables (completion_window : string) (wait_interval : Z).

(** One turn of the loop on a status that is neither the success nor a
    failure: log, sleep, poll again. *)
Lemma poll_again (fuel : nat) (job_id : string) (h : history) (b : Batch) :
  batches_retrieve client h job_id = Ok b ->
  ready b = None ->
  terminal_failure (status b) = false ->
  poll (S fuel) client job_id wait_interval h
  = poll fuel client job_id wait_interval
      (Sleep wait_interval
         :: Log ("Batch Request Status: " ++ status_name (status b))
         :: BatchesRetrieve job_id :: h).
Proof.
  intros Hget Hready Hterm.
  simpl. unfold bind at 1, call, lift. rewrite Hget. unfold ret at 1.
  rewrite Hready, Hterm. reflexivity.
Qed.

(** One turn of the loop on a terminal failure: [RuntimeError]. *)
Lemma poll_failure (fuel : nat) (job_id : string) (h : history) (b : Batch) :
  batches_retrieve client h job_id = Ok b ->
  terminal_failure (status b) = true ->
  poll (S fuel) client job_id wait_interval h
  = (Raise (RuntimeError ("Batch Job Failed: " ++ status_name (status b))),
     BatchesRetrieve job_id :: h).
Proof.
  intros Hget Hterm.
  assert (Hready : ready b = None).
  { unfold ready. destruct (output_file_id b); [| reflexivity].
    destruct (status b); try discriminate; simpl;
      rewrite andb_false_r; reflexivity. }
  simpl. unfold bind at 1, call, lift. rewrite Hget. unfold ret at 1.
  rewrite Hready, Hterm. reflexivity.
Qed.

(** The attempt, once the upload and the job are accepted, is the loop. *)
Lemma process_attempt_polls (fuel : nat) (h : history) (f : FileObject) (job : Batch) :
  let name := "batch_" ++ uuid ++ "_" ++ str_of_nat batch_idx ++ ".jsonl" in
  let h1 := FilesCreate name batch :: h in
  let h2 := BatchesCreate (file_id f) "/v1/embeddings" completion_window :: h1 in
  files_create client h name batch = Ok f ->
  batches_create client h1 (file_id f) "/v1/embeddings" completion_window = Ok job ->
  process_attempt fuel client uuid batch_idx batch completion_window wait_interval h
  = match poll fuel client (batch_id job) wait_interval h2 with
    | (Raise e, h') => (Raise e, LogException e :: h')
    | r => r
    end.
Proof.
  intros name h1 h2 Hup Hjob.
  unfold process_attempt, try_except.
  fold name.
  unfold bind at 1, call at 1, lift at 1. rewrite Hup. unfold ret at 1.
  unfold bind at 1, call at 1, lift at 1. fold h1. rewrite Hjob. unfold ret at 1.
  fold h2.
  destruct (poll fuel client (batch_id job) wait_interval h2) as [[l | e |] h'];
    reflexivity.
Qed.

Lemma poll_stuck (fuel : nat) (job_id : string) (h : history) :
  always_reports client (fun b => status b = completed /\ output_file_id b = None) ->
  exists h',
    poll fuel client job_id wait_interval h = (Spin, h')
    /\ polls h' = polls h + fuel
    /\ sleeps h' = sleeps h + fuel
    /\ uploads h' = uploads h.
Proof.
  intros Hstuck. revert h.
  induction fuel as [| fuel IH]; intros h.
  - exists h. simpl. repeat split; lia.
  - destruct (Hstuck h job_id) as (b & Hget & Hst & Hout).
    rewrite (poll_again fuel job_id h b Hget).
    + destruct (IH (Sleep wait_interval
                      :: Log ("Batch Request Status: " ++ status_name (status b))
                      :: BatchesRetrieve job_id :: h)) as (h' & Hrun & Hp & Hs & Hu).
      exists h'. split; [exact Hrun |].
      unfold polls, sleeps, uploads in *. simpl in *. repeat split; lia.
    + unfold ready. rewrite Hout. reflexivity.
    + rewrite Hst. reflexivity.
Qed.

End Poller.

(** C10: a poll that answers "completed" without an output file id is not
    terminal: the loop logs the status, sleeps and polls again; against a
    job that stays so, [_process_one_batch] is still polling after any
    number of polls, in its first attempt, having neither returned nor
    raised. *)
Theorem completed_without_output_polls_forever (client : OpenAI) (uuid : string)
  (batch_idx : nat) (batch : payload) (completion_window : string) (wait_interval : Z) :
  accepts_uploads client ->
  accepts_jobs client ->
  always_reports client (fun b => status b = completed /\ output_file_id b = None) ->
  (forall fuel job_id h,
     poll (S fuel) client job_id wait_interval h
     = poll fuel client job_id wait_interval
         (Sleep wait_interval :: Log "Batch Request Status: completed"
            :: BatchesRetrieve job_id :: h))
  /\ (forall fuel h,
        exists h',
          _process_one_batch fuel client uuid batch_idx batch completion_window
            wait_interval h = (Spin, h')
          /\ polls h' = polls h + fuel
          /\ sleeps h' = sleeps h + fuel
          /\ uploads h' = uploads h + 1).
Proof.
  intros Hup Hjob Hstuck. split.
  - intros fuel job_id h.
    destruct (Hstuck h job_id) as (b & Hget & Hst & Hout).
    rewrite (poll_again client wait_interval fuel job_id h b Hget).
    + rewrite Hst. reflexivity.
    + unfold ready. rewrite Hout. reflexivity.
    + rewrite Hst. reflexivity.
  - intros fuel h.
    destruct (Hup h ("batch_" ++ uuid ++ "_" ++ str_of_nat batch_idx ++ ".jsonl") batch)
      as [f Hf].
    destruct (Hjob (FilesCreate ("batch_" ++ uuid ++ "_" ++ str_of_nat batch_idx ++ ".jsonl")
                      batch :: h)
                   (file_id f) "/v1/embeddings" completion_window) as [job Hj].
    destruct (poll_stuck client wait_interval fuel (batch_id job)
                (BatchesCreate (file_id f) "/v1/embeddings" completion_window
                   :: FilesCreate ("batch_" ++ uuid ++ "_" ++ str_of_nat batch_idx ++ ".jsonl")
                        batch :: h) Hstuck)
      as (h' & Hrun & Hp & Hs & Hu).
    exists h'. split.
    + unfold _process_one_batch, retry.
      apply retry_from_not_raised; [| discriminate].
      rewrite (process_attempt_polls client uuid batch_idx batch completion_window
                 wait_interval fuel h f job Hf Hj).
      rewrite Hrun. reflexivity.
    + unfold polls, sleeps, uploads in *. simpl in *. repeat split; lia.
Qed.

Lemma completed_without_output_polls_forever_witness :
  poll 3 stuck_client "job" 30 []
  = poll 2 stuck_client "job" 30
      [Sleep 30; Log "Batch Request Status: completed"; BatchesRetrieve "job"]
  /\ exists h',
       _process_one_batch 1000 stuck_client "u" 0 one_text_batch "24h" 30 [] = (Spin, h')
       /\ polls h' = 1000 /\ sleeps h' = 1000 /\ uploads h' = 1.
Proof.
  assert (Hup : accepts_uploads stuck_client)
    by (intros h name b; eexists; reflexivity).
  assert (Hjob : accepts_jobs stuck_client)
    by (intros h a b c; eexists; reflexivity).
  assert (Hstuck : always_reports stuck_client
                     (fun b => status b = completed /\ output_file_id b = None))
    by (intros h id; eexists; split; [reflexivity | split; reflexivity]).
  destruct (completed_without_output_polls_forever stuck_client "u" 0 one_text_batch
              "24h" 30 Hup Hjob Hstuck) as [Hstep Hrun].
  split.
  - apply Hstep.
  - apply (Hrun 1000 []).
Defined.

Section Retry.

Variables (client : OpenAI) (uuid : string) (batch_idx : nat) (batch : payload).
Variables (completion_window : string) (wait_interval : Z).

Hypothesis Hup : accepts_uploads client.
Hypothesis Hjob : accepts_jobs client.
Hypothesis Hfail : always_reports client (fun b => terminal_failure (status b) = true).



End Retry.




(** ** ResultAssembler *)

Lemma rmap_map_ok {A B C} (f : B -> result C) (g : A -> B) (k : A -> C) (l : list A) :
  (forall a, f (g a) = Ok (k a)) -> rmap f (map g l) = Ok (map k l).
Proof.
  intros Hf. induction l as [| a l IH]; simpl; [reflexivity |].
  rewrite Hf, IH. reflexivity.
Qed.

Lemma rmap_err_at {A B} (f : A -> result B) (l : list A) (a : A) :
  In a l -> (exists e, f a = Err e) -> exists e, rmap f l = Err e.
Proof.
  intros Hin [e He].
  induction l as [| x l IH]; simpl; [contradiction |].
  destruct (f x) as [b | e'] eqn:Hx; simpl; [| exists e'; reflexivity].
  destruct Hin as [-> | Hin].
  - rewrite He in Hx. discriminate.
  - destruct (IH Hin) as [e'' ->]. exists e''. reflexivity.
Qed.

(** A line on which [loads] raises stops the assembly at once. *)
Lemma loads_error (lines : list line) :
  In None lines -> rmap loads lines = Err JSONDecodeError.
Proof.
  induction lines as [| l lines IH]; simpl; [contradiction |].
  intros [-> | Hin]; [reflexivity |].
  destruct l as [j |]; simpl; [| reflexivity].
  rewrite (IH Hin). reflexivity.
Qed.

Lemma loads_all (lines : list line) (raw : list json) :
  rmap loads lines = Ok raw -> lines = map Some raw.
Proof.
  revert raw. induction lines as [| l lines IH]; simpl; intros raw Hok.
  - injection Hok as <-. reflexivity.
  - destruct l as [j |]; simpl in Hok; [| discriminate].
    destruct (rmap loads lines) as [raw' | e]; simpl in Hok; [| discriminate].
    injection Hok as <-. simpl. f_equal. apply IH. reflexivity.
Qed.

Lemma split_lines_keeps (content : list line) (l : line) :
  In l content -> In l (split_lines content).
Proof. destruct content; simpl; [contradiction | trivial]. Qed.

Lemma insert_sorted_map {A B} (g : string * A -> B) (x : string * A)
  (l : list (string * A)) :
  insert_sorted (fst x, g x) (map (fun r => (fst r, g r)) l)
  = map (fun r => (fst r, g r)) (insert_sorted x l).
Proof.
  induction l as [| y l IH]; simpl; [reflexivity |].
  destruct (String.ltb (fst y) (fst x)); simpl; [rewrite IH |]; reflexivity.
Qed.

(** Sorting looks at the keys only. *)
Lemma sorted_map {A B} (g : string * A -> B) (l : list (string * A)) :
  sorted (map (fun r => (fst r, g r)) l) = map (fun r => (fst r, g r)) (sorted l).
Proof.
  induction l as [| x l IH]; simpl; [reflexivity |].
  rewrite IH. apply insert_sorted_map.
Qed.

Lemma embeddings_of_record (r : string * list json) :
  embeddings_of (record r) = Ok (snd r).
Proof.
  unfold embeddings_of, record. simpl.
  induction (snd r) as [| e es IH]; simpl; [reflexivity |].
  rewrite IH. reflexivity.
Qed.

Lemma loads_parsed (raw : list json) : rmap loads (map Some raw) = Ok raw.
Proof.
  induction raw as [| j raw IH]; simpl; [reflexivity |].
  rewrite IH. reflexivity.
Qed.

(** An output of well-formed records is sorted by [custom_id] and
    flattened, whatever the [custom_id]s are. *)
Lemma assemble_records (records : list (string * list json)) :
  records <> [] ->
  assemble (map (fun r => Some (record r)) records)
  = Ok (List.concat (map snd (sorted records))).
Proof.
  intros Hne. unfold assemble.
  replace (split_lines (map (fun r => Some (record r)) records))
    with (map Some (map record records))
    by (rewrite map_map; destruct records; [contradiction | reflexivity]).
  rewrite loads_parsed. simpl.
  rewrite (rmap_map_ok itemgetter_custom_id record (fun r => (fst r, record r)))
    by reflexivity.
  simpl.
  rewrite (sorted_map record), map_map. simpl.
  rewrite <- (map_map record (fun j => j)), map_id.
  rewrite (rmap_map_ok embeddings_of record snd) by apply embeddings_of_record.
  reflexivity.
Qed.

(** C6, as the claim states it, fails: the only chunk of the batch has
    the [custom_id] "batch_u_0_0"; the output has one record of another
    [custom_id], and it is assembled and returned without an error. *)
Lemma foreign_custom_id_is_accepted :
  map custom_id one_text_batch = ["batch_u_0_0"]
  /\ assemble [Some (record ("batch_0123abcd_7_0", [tagged "something else"]))]
     = Ok [tagged "something else"]
  /\ fst (_process_one_batch 1 foreign_client "u" 0 one_text_batch "24h" 30 [])
     = Ret [tagged "something else"].
Proof. repeat split; vm_compute; reflexivity. Qed.

(** C6, amended: the assembly raises when a line of the output is
    malformed JSON (the empty output is one such line) and when a line is an
    object without the field [custom_id]; it does not compare a [custom_id]
    with those of the run: an output whose lines are all result records is
    assembled, sorted by [custom_id] and flattened, whatever the
    [custom_id]s are. *)
Theorem assemble_raises_on_bad_lines (content : list line) :
  (In None content \/ content = [] -> assemble content = Err JSONDecodeError)
  /\ ((exists l, In l content /\ lacks_custom_id l) ->
      exists e, assemble content = Err e)
  /\ (forall records,
        records <> [] ->
        content = map (fun r => Some (record r)) records ->
        assemble content = Ok (List.concat (map snd (sorted records)))).
Proof.
  split; [| split].
  - intros Hbad. unfold assemble.
    rewrite loads_error; [reflexivity |].
    destruct Hbad as [Hin | ->]; [apply split_lines_keeps; exact Hin | left; reflexivity].
  - intros (l & Hin & fields & -> & Hnone). unfold assemble.
    destruct (rmap loads (split_lines content)) as [raw | e] eqn:Hraw; simpl;
      [| exists e; reflexivity].
    apply split_lines_keeps in Hin.
    rewrite (loads_all _ _ Hraw) in Hin.
    apply in_map_iff in Hin. destruct Hin as (j & Hj & Hin). injection Hj as ->.
    destruct (rmap_err_at itemgetter_custom_id raw (JObj fields) Hin) as [e He].
    + exists (KeyError "custom_id").
      unfold itemgetter_custom_id, getitem. rewrite Hnone. reflexivity.
    + rewrite He. exists e. reflexivity.
  - intros records Hne ->. apply assemble_records. exact Hne.
Qed.

Lemma assemble_raises_on_bad_lines_witness :
  assemble [Some (record ("batch_u_0_0", [tagged "a"])); None] = Err JSONDecodeError
  /\ (exists e,
        assemble [Some (record ("batch_u_0_0", [tagged "a"]));
                  Some (JObj [("response", JObj [])])] = Err e)
  /\ assemble (map (fun r => Some (record r))
                 [("batch_u_0_2048", [tagged "b"]); ("batch_x_9_9", [tagged "c"]);
                  ("batch_u_0_0", [tagged "a"])])
     = Ok [tagged "a"; tagged "b"; tagged "c"].
Proof.
  split; [| split].
  - apply (proj1 (assemble_raises_on_bad_lines _)).
    left. simpl. right. left. reflexivity.
  - apply (proj1 (proj2 (assemble_raises_on_bad_lines _))).
    exists (Some (JObj [("response", JObj [])])). split.
    + simpl. right. left. reflexivity.
    + exists [("response", JObj [])]. split; reflexivity.
  - apply (proj2 (proj2 (assemble_raises_on_bad_lines _))
             [("batch_u_0_2048", [tagged "b"]); ("batch_x_9_9", [tagged "c"]);
              ("batch_u_0_0", [tagged "a"])]).
    + discriminate.
    + reflexivity.
Defined.

(** ** Orchestrator *)

Lemma for_each_runs {A B} (f : A -> M B) (l : list A) (h h' : history) (bs : list B) :
  for_each l f h = (Ret bs, h') <-> runs_in_order f l h bs h'.
Proof.
  split.
  - revert h bs. induction l as [| a l IH]; simpl; intros h bs Hrun.
    + injection Hrun as <- <-. constructor.
    + unfold bind at 1 in Hrun.
      destruct (f a h) as [[b | e |] h1] eqn:Hfa; try discriminate.
      unfold bind at 1 in Hrun.
      destruct (for_each l f h1) as [[bs' | e |] h2] eqn:Hrest; try discriminate.
      injection Hrun as <- <-.
      econstructor; [exact Hfa | apply IH; exact Hrest].
  - intros Hrun. induction Hrun as [h | a l h h1 h2 b bs Hfa _ IH]; simpl.
    + reflexivity.
    + unfold bind at 1. rewrite Hfa. unfold bind at 1. rewrite IH. reflexivity.
Qed.

(** A run that raises ends the comprehension: the items after it are not
    run and nothing is returned. *)
Lemma for_each_raises {A B} (f : A -> M B) (done rest : list A) (a : A)
  (h h1 h2 : history) (bs : list B) (e : exn) :
  runs_in_order f done h bs h1 ->
  f a h1 = (Raise e, h2) ->
  for_each (done ++ a :: rest)%list f h = (Raise e, h2).
Proof.
  intros Hdone Hfa.
  induction Hdone as [h | a' l h h' h1 b bs Hfa' _ IH]; simpl.
  - unfold bind at 1. rewrite Hfa. reflexivity.
  - unfold bind at 1. rewrite Hfa'. unfold bind at 1. rewrite (IH Hfa). reflexivity.
Qed.

Lemma for_each_ext {A B} (f g : A -> M B) (l : list A) (h : history) :
  (forall a h', f a h' = g a h') -> for_each l f h = for_each l g h.
Proof.
  intros Hfg. revert h.
  induction l as [| a l IH]; intros h; simpl; [reflexivity |].
  unfold bind at 1 3. rewrite Hfg.
  destruct (g a h) as [[b | e |] h1]; try reflexivity.
  unfold bind at 1 2. rewrite IH. reflexivity.
Qed.

Lemma batch_loop_indices (text2tokens : string -> result Z) (model uuid : string)
  (token_limit : Z) (chunk_size : positive) (texts current_request : list string)
  (current_tokens : Z) (batch_idx : nat) :
  let batches := fst (batch_loop text2tokens model uuid token_limit chunk_size
                        texts current_request current_tokens batch_idx) in
  map fst batches = seq batch_idx (List.length batches).
Proof.
  revert current_request current_tokens batch_idx.
  induction texts as [| text rest IH]; intros current_request current_tokens batch_idx;
    simpl.
  - destruct (nonempty current_request); reflexivity.
  - destruct (text2tokens text) as [tokens | e]; [| reflexivity].
    destruct (current_tokens + tokens >? token_limit)%Z.
    + simpl. f_equal. apply IH.
    + apply IH.
Qed.

Section TopLevel.

Variables (net : network) (tk : tiktoken) (uuid : string) (fuel : nat).
Variables (model : string) (texts : list string) (key url : string).

Lemma generate_caught (h : history) :
  generate_openai_batch_embeddings net tk uuid fuel model texts key url h
  = caught (if (text_length texts <? 500000)%Z
            then _request_sync_embedding net url key texts model (logged_sync h)
            else _request_async_embedding net tk uuid fuel model texts key url
                   "24h" 60 1000000 (logged_async h)).
Proof.
  unfold generate_openai_batch_embeddings, try_except, logged_sync, logged_async.
  unfold bind at 1, emit at 1.
  destruct (text_length texts <? 500000)%Z.
  - unfold bind at 1, emit at 1. unfold bind at 1.
    destruct (_request_sync_embedding net url key texts model _) as [[l | e |] h'];
      reflexivity.
  - unfold bind at 1, emit at 1. unfold bind at 1.
    destruct (_request_async_embedding net tk uuid fuel model texts key url _ _ _ _)
      as [[l | e |] h']; reflexivity.
Qed.

Lemma async_returns (completion_window : string) (wait_interval token_limit : Z)
  (h h' : history) (embeddings : list json) :
  _request_async_embedding net tk uuid fuel model texts key url
    completion_window wait_interval token_limit h = (Ret embeddings, h') ->
  exists per_batch,
    runs_in_order (process_batch net uuid fuel key url completion_window wait_interval)
      (fst (_batch_iterator tk texts model uuid token_limit default_chunk_size))
      h per_batch h'
    /\ snd (_batch_iterator tk texts model uuid token_limit default_chunk_size) = None
    /\ embeddings = List.concat per_batch.
Proof.
  unfold _request_async_embedding. intros Hrun.
  unfold bind at 1 in Hrun.
  match type of Hrun with
  | context [for_each ?l ?f h] =>
      destruct (for_each l f h) as [[per_batch | e |] h1] eqn:Heach; try discriminate
  end.
  destruct (snd (_batch_iterator tk texts model uuid token_limit default_chunk_size))
    as [e |]; [discriminate |].
  injection Hrun as <- <-.
  exists per_batch. split; [| split; reflexivity].
  apply for_each_runs.
  rewrite <- Heach. apply for_each_ext. intros [batch_idx batch] h0. reflexivity.
Qed.

Lemma async_raises (completion_window : string) (wait_interval token_limit : Z)
  (h h1 h2 : history) (done rest : list (nat * payload)) (failing : nat * payload)
  (per_batch : list (list json)) (e : exn) :
  fst (_batch_iterator tk texts model uuid token_limit default_chunk_size)
  = (done ++ failing :: rest)%list ->
  runs_in_order (process_batch net uuid fuel key url completion_window wait_interval)
    done h per_batch h1 ->
  process_batch net uuid fuel key url completion_window wait_interval failing h1
  = (Raise e, h2) ->
  _request_async_embedding net tk uuid fuel model texts key url
    completion_window wait_interval token_limit h = (Raise e, h2).
Proof.
  intros Hplan Hdone Hfail.
  unfold _request_async_embedding. rewrite Hplan.
  unfold bind at 1.
  match goal with
  | |- context [for_each ?l ?f h] =>
      replace (for_each l f h) with (@Raise (list (list json)) e, h2); [reflexivity |]
  end.
  symmetry.
  rewrite <- (for_each_raises
                (process_batch net uuid fuel key url completion_window wait_interval)
                done rest failing h h1 h2 per_batch e Hdone Hfail).
  apply for_each_ext. intros [batch_idx batch] h0. reflexivity.
Qed.

End TopLevel.

(** The calls of the two paths: the synchronous path posts to the endpoint
    and uploads nothing; the asynchronous path never posts to it. *)
Lemma sync_attempt_calls (net : network) (url key : string) (texts : list string)
  (model : string) (h : history) :
  posts (snd (sync_attempt net url key texts model h)) = posts h + 1
  /\ uploads (snd (sync_attempt net url key texts model h)) = uploads h.
Proof.
  destruct (sync_attempt net url key texts model h) as [o h'] eqn:Hrun. simpl.
  unfold sync_attempt, bind, emit, call in Hrun.
  destruct (requests_post net _ (url ++ "/embeddings") key texts model) as [data | e];
    simpl in Hrun.
  - destruct (contains data "data") as [[|] | e]; simpl in Hrun.
    + destruct (rbind (getitem data "data") _); simpl in Hrun;
        injection Hrun as <- <-; unfold posts, uploads; simpl; split; lia.
    + injection Hrun as <- <-. unfold posts, uploads. simpl. split; lia.
    + injection Hrun as <- <-. unfold posts, uploads. simpl. split; lia.
  - injection Hrun as <- <-. unfold posts, uploads. simpl. split; lia.
Qed.

Lemma sync_calls (net : network) (url key : string) (texts : list string)
  (model : string) (left attempt_number : nat) (h : history) :
  let h' := snd (retry_from (wait_exponential 1 4 10) left attempt_number
                   (sync_attempt net url key texts model) h) in
  posts h + 1 <= posts h' <= posts h + S left /\ uploads h' = uploads h.
Proof.
  revert attempt_number h.
  induction left as [| left IH]; intros attempt_number h; simpl.
  - destruct (sync_attempt_calls net url key texts model h) as [Hp Hu].
    destruct (sync_attempt net url key texts model h) as [[l | e |] h1];
      simpl in *; split; lia.
  - destruct (sync_attempt_calls net url key texts model h) as [Hp Hu].
    destruct (sync_attempt net url key texts model h) as [[l | e |] h1];
      simpl in *; try (split; lia).
    unfold bind, emit.
    specialize (IH (S attempt_number)
                   (Sleep (wait_exponential 1 4 10 attempt_number) :: h1)).
    simpl in IH.
    change (posts (Sleep (wait_exponential 1 4 10 attempt_number) :: h1))
      with (posts h1) in IH.
    change (uploads (Sleep (wait_exponential 1 4 10 attempt_number) :: h1))
      with (uploads h1) in IH.
    split; lia.
Qed.

Lemma poll_keeps_posts (client : OpenAI) (wait_interval : Z) (fuel : nat)
  (job_id : string) (h : history) :
  posts (snd (poll fuel client job_id wait_interval h)) = posts h.
Proof.
  revert h. induction fuel as [| fuel IH]; intros h; simpl; [reflexivity |].
  unfold bind at 1, call at 1.
  destruct (batches_retrieve client h job_id) as [b | e]; simpl; [| reflexivity].
  destruct (ready b) as [id |].
  - unfold bind at 1, emit at 1. unfold bind at 1, call at 1.
    destruct (files_content client _ id) as [output_content | e]; simpl; [| reflexivity].
    destruct (assemble output_content); reflexivity.
  - destruct (terminal_failure (status b)); [reflexivity |].
    unfold bind at 1, _print_with_time, emit at 1.
    unfold bind at 1, emit at 1.
    rewrite IH. reflexivity.
Qed.

Lemma process_attempt_keeps_posts (client : OpenAI) (uuid : string) (batch_idx : nat)
  (batch : payload) (completion_window : string) (wait_interval : Z)
  (fuel : nat) (h : history) :
  posts (snd (process_attempt fuel client uuid batch_idx batch completion_window
                wait_interval h)) = posts h.
Proof.
  unfold process_attempt, try_except.
  unfold bind at 1, call at 1.
  destruct (files_create client h _ batch) as [f | e]; simpl; [| reflexivity].
  unfold bind at 1, call at 1.
  destruct (batches_create client _ (file_id f) _ completion_window) as [job | e]; simpl;
    [| reflexivity].
  match goal with
  | |- context [poll fuel client ?j wait_interval ?h2] =>
      pose proof (poll_keeps_posts client wait_interval fuel j h2) as Hpoll;
      destruct (poll fuel client j wait_interval h2) as [[l | e |] h3]
  end; simpl in *; exact Hpoll.
Qed.

Lemma process_keeps_posts (client : OpenAI) (uuid : string) (batch_idx : nat)
  (batch : payload) (completion_window : string) (wait_interval : Z)
  (fuel left attempt_number : nat) (h : history) :
  posts (snd (retry_from (wait_exponential 1 4 10) left attempt_number
                (process_attempt fuel client uuid batch_idx batch completion_window
                   wait_interval) h)) = posts h.
Proof.
  revert attempt_number h.
  induction left as [| left IH]; intros attempt_number h; simpl.
  - pose proof (process_attempt_keeps_posts client uuid batch_idx batch
                  completion_window wait_interval fuel h) as Hone.
    destruct (process_attempt fuel client uuid batch_idx batch completion_window
                wait_interval h) as [[l | e |] h1]; simpl in *; exact Hone.
  - pose proof (process_attempt_keeps_posts client uuid batch_idx batch
                  completion_window wait_interval fuel h) as Hone.
    destruct (process_attempt fuel client uuid batch_idx batch completion_window
                wait_interval h) as [[l | e |] h1]; simpl in *; try exact Hone.
    unfold bind, emit. rewrite IH. exact Hone.
Qed.

Lemma for_each_keeps_posts {A B} (f : A -> M B) (l : list A) (h : history) :
  (forall a h0, posts (snd (f a h0)) = posts h0) ->
  posts (snd (for_each l f h)) = posts h.
Proof.
  intros Hf. revert h.
  induction l as [| a l IH]; intros h; simpl; [reflexivity |].
  unfold bind at 1.
  pose proof (Hf a h) as Ha.
  destruct (f a h) as [[b | e |] h1]; simpl in *; try exact Ha.
  unfold bind at 1.
  pose proof (IH h1) as Hl.
  destruct (for_each l f h1) as [[bs | e |] h2]; simpl in *; congruence.
Qed.

Section Paths.

Variables (net : network) (tk : tiktoken) (uuid : string) (fuel : nat).
Variables (model : string) (texts : list string) (key url : string).

Lemma async_keeps_posts (completion_window : string) (wait_interval token_limit : Z)
  (h : history) :
  posts (snd (_request_async_embedding net tk uuid fuel model texts key url
                completion_window wait_interval token_limit h)) = posts h.
Proof.
  unfold _request_async_embedding.
  unfold bind at 1.
  match goal with
  | |- context [for_each ?l ?f h] =>
      pose proof (for_each_keeps_posts f l h) as Heach;
      destruct (for_each l f h) as [[per_batch | e |] h1]
  end; simpl in *.
  - destruct (snd (_batch_iterator tk texts model uuid token_limit default_chunk_size));
      simpl; apply Heach; intros [batch_idx batch] h0; apply process_keeps_posts.
  - apply Heach. intros [batch_idx batch] h0. apply process_keeps_posts.
  - apply Heach. intros [batch_idx batch] h0. apply process_keeps_posts.
Qed.

(** Batches that all return, and a generator that ends without an
    exception, make the path return the concatenation. *)
Lemma async_runs (completion_window : string) (wait_interval token_limit : Z)
  (h h' : history) (per_batch : list (list json)) :
  runs_in_order (process_batch net uuid fuel key url completion_window wait_interval)
    (fst (_batch_iterator tk texts model uuid token_limit default_chunk_size))
    h per_batch h' ->
  snd (_batch_iterator tk texts model uuid token_limit default_chunk_size) = None ->
  _request_async_embedding net tk uuid fuel model texts key url
    completion_window wait_interval token_limit h
  = (Ret (List.concat per_batch), h').
Proof.
  intros Hruns Hend.
  apply for_each_runs in Hruns.
  unfold _request_async_embedding. unfold bind at 1.
  match goal with
  | |- context [for_each ?l ?f h] =>
      replace (for_each l f h) with (Ret per_batch, h')
  end.
  - rewrite Hend. reflexivity.
  - rewrite <- Hruns. apply for_each_ext. intros [batch_idx batch] h0. reflexivity.
Qed.

(** The generator ends with an exception after all its batches returned:
    the path raises this exception. *)
Lemma async_generator_raises (completion_window : string)
  (wait_interval token_limit : Z) (h h' : history) (per_batch : list (list json))
  (e : exn) :
  runs_in_order (process_batch net uuid fuel key url completion_window wait_interval)
    (fst (_batch_iterator tk texts model uuid token_limit default_chunk_size))
    h per_batch h' ->
  snd (_batch_iterator tk texts model uuid token_limit default_chunk_size) = Some e ->
  _request_async_embedding net tk uuid fuel model texts key url
    completion_window wait_interval token_limit h
  = (Raise e, h').
Proof.
  intros Hruns Hend.
  apply for_each_runs in Hruns.
  unfold _request_async_embedding. unfold bind at 1.
  match goal with
  | |- context [for_each ?l ?f h] =>
      replace (for_each l f h) with (Ret per_batch, h')
  end.
  - rewrite Hend. reflexivity.
  - rewrite <- Hruns. apply for_each_ext. intros [batch_idx batch] h0. reflexivity.
Qed.

End Paths.

(** C8: with a total character length below 500000 the call is the
    synchronous path (it posts to the endpoint, one to five times, and
    uploads nothing), and otherwise it is the asynchronous path with the
    defaults of [_request_async_embedding] (it never posts to the
    endpoint). That path runs [_process_one_batch] on the planned batches
    one after the other, the batch indices being 0, 1, 2, ... in this
    order: it returns exactly when every batch returns, each run from the
    history the one before left, and the generator ends without an
    exception, and then it returns the concatenation of the lists the
    batches gave, in this order; when a batch raises after the ones before
    it returned, the path raises there and runs no later batch; when the
    generator ends with an exception after its batches returned, the path
    raises this exception. *)
Theorem path_by_text_length (net : network) (tk : tiktoken) (uuid : string)
  (fuel : nat) (model : string) (texts : list string) (key url : string)
  (h : history) :
  ((text_length texts < 500000)%Z ->
   generate_openai_batch_embeddings net tk uuid fuel model texts key url h
   = caught (_request_sync_embedding net url key texts model (logged_sync h))
   /\ (let h' := snd (generate_openai_batch_embeddings net tk uuid fuel model texts
                        key url h) in
       posts h + 1 <= posts h' <= posts h + 5 /\ uploads h' = uploads h))
  /\ ((500000 <= text_length texts)%Z ->
      let plan := _batch_iterator tk texts model uuid 1000000 default_chunk_size in
      let batches := fst plan in
      let process := process_batch net uuid fuel key url "24h" 60 in
      let run := _request_async_embedding net tk uuid fuel model texts key url
                   "24h" 60 1000000 in
      generate_openai_batch_embeddings net tk uuid fuel model texts key url h
      = caught (run (logged_async h))
      /\ posts (snd (generate_openai_batch_embeddings net tk uuid fuel model texts
                       key url h)) = posts h
      /\ map fst batches = seq 0 (List.length batches)
      /\ (forall embeddings h',
            run (logged_async h) = (Ret embeddings, h') <->
            exists per_batch,
              runs_in_order process batches (logged_async h) per_batch h'
              /\ snd plan = None
              /\ embeddings = List.concat per_batch)
      /\ (forall done failing rest per_batch e h1 h2,
            batches = (done ++ failing :: rest)%list ->
            runs_in_order process done (logged_async h) per_batch h1 ->
            process failing h1 = (Raise e, h2) ->
            run (logged_async h) = (Raise e, h2))
      /\ (forall per_batch e h',
            runs_in_order process batches (logged_async h) per_batch h' ->
            snd plan = Some e ->
            run (logged_async h) = (Raise e, h'))).
Proof.
  split.
  - intros Hshort.
    assert (Hgen : generate_openai_batch_embeddings net tk uuid fuel model texts key url h
                   = caught (_request_sync_embedding net url key texts model
                               (logged_sync h))).
    { rewrite generate_caught. apply Z.ltb_lt in Hshort. rewrite Hshort. reflexivity. }
    split; [exact Hgen |].
    rewrite Hgen.
    pose proof (sync_calls net url key texts model 4 1 (logged_sync h)) as Hcalls.
    unfold _request_sync_embedding, retry, stop_after_attempt. simpl Nat.sub.
    cbv zeta in Hcalls.
    destruct (retry_from (wait_exponential 1 4 10) 4 1
                (sync_attempt net url key texts model) (logged_sync h))
      as [[l | e |] h1]; simpl in *;
      unfold posts, uploads, logged_sync in *; simpl in *; lia.
  - intros Hlong plan batches process run.
    assert (Hgen : generate_openai_batch_embeddings net tk uuid fuel model texts key url h
                   = caught (run (logged_async h))).
    { rewrite generate_caught. apply Z.ltb_ge in Hlong. rewrite Hlong. reflexivity. }
    split; [exact Hgen |].
    split; [| split; [| split; [| split]]].
    + rewrite Hgen.
      pose proof (async_keeps_posts net tk uuid fuel model texts key url "24h" 60
                    1000000 (logged_async h)) as Hposts.
      fold run in Hposts.
      destruct (run (logged_async h)) as [[l | e |] h1]; simpl in *;
        unfold posts, logged_async in *; simpl in *; lia.
    + apply batch_loop_indices.
    + intros embeddings h'. split.
      * intros Hrun.
        destruct (async_returns net tk uuid fuel model texts key url "24h" 60 1000000
                    (logged_async h) h' embeddings Hrun)
          as (per_batch & Hruns & Hend & Hcat).
        exists per_batch. repeat split; assumption.
      * intros (per_batch & Hruns & Hend & ->).
        apply (async_runs net tk uuid fuel model texts key url "24h" 60 1000000
                 (logged_async h) h' per_batch Hruns Hend).
    + intros done failing rest per_batch e h1 h2 Hplan Hdone Hfail.
      apply (async_raises net tk uuid fuel model texts key url "24h" 60 1000000
               (logged_async h) h1 h2 done rest failing per_batch e Hplan Hdone Hfail).
    + intros per_batch e h' Hruns Hend.
      apply (async_generator_raises net tk uuid fuel model texts key url "24h" 60
               1000000 (logged_async h) h' per_batch e Hruns Hend).
Qed.

(** C7: [generate_openai_batch_embeddings] never raises: an exception of
    the synchronous or of the asynchronous path is logged and the call
    returns [None]; and when a batch raises after the batches before it
    have given their embeddings, the asynchronous path raises, so that the
    call returns [None] and not the embeddings gathered so far. *)
Theorem generate_never_raises (net : network) (tk : tiktoken) (uuid : string)
  (fuel : nat) (model : string) (texts : list string) (key url : string)
  (h : history) :
  (forall e,
     fst (generate_openai_batch_embeddings net tk uuid fuel model texts key url h)
     <> Raise e)
  /\ (forall e h',
        (text_length texts < 500000)%Z ->
        _request_sync_embedding net url key texts model (logged_sync h) = (Raise e, h') ->
        generate_openai_batch_embeddings net tk uuid fuel model texts key url h
        = (Ret None, LogException e :: h'))
  /\ (forall e h',
        (500000 <= text_length texts)%Z ->
        _request_async_embedding net tk uuid fuel model texts key url
          "24h" 60 1000000 (logged_async h) = (Raise e, h') ->
        generate_openai_batch_embeddings net tk uuid fuel model texts key url h
        = (Ret None, LogException e :: h'))
  /\ (forall completion_window wait_interval token_limit h0 h1 h2
             done failing rest per_batch e,
        fst (_batch_iterator tk texts model uuid token_limit default_chunk_size)
        = (done ++ failing :: rest)%list ->
        runs_in_order (process_batch net uuid fuel key url completion_window wait_interval)
          done h0 per_batch h1 ->
        process_batch net uuid fuel key url completion_window wait_interval failing h1
        = (Raise e, h2) ->
        _request_async_embedding net tk uuid fuel model texts key url
          completion_window wait_interval token_limit h0 = (Raise e, h2)).
Proof.
  split; [| split; [| split]].
  - intros e. rewrite generate_caught.
    destruct (text_length texts <? 500000)%Z.
    + destruct (_request_sync_embedding net url key texts model (logged_sync h))
        as [[l | e' |] h']; discriminate.
    + destruct (_request_async_embedding net tk uuid fuel model texts key url
                  "24h" 60 1000000 (logged_async h)) as [[l | e' |] h']; discriminate.
  - intros e h' Hshort Hraise. rewrite generate_caught.
    apply Z.ltb_lt in Hshort. rewrite Hshort, Hraise. reflexivity.
  - intros e h' Hlong Hraise. rewrite generate_caught.
    apply Z.ltb_ge in Hlong. rewrite Hlong, Hraise. reflexivity.
  - intros completion_window wait_interval token_limit h0 h1 h2 done failing rest
      per_batch e Hplan Hdone Hfail.
    apply (async_raises net tk uuid fuel model texts key url completion_window
             wait_interval token_limit h0 h1 h2 done rest failing per_batch e
             Hplan Hdone Hfail).
Qed.

Lemma generate_never_raises_witness :
  fst (generate_openai_batch_embeddings (tiring_network tagged) no_tiktoken "u" 1 "m"
         five_sentences "key" "https://api.openai.com/v1" [])
  = Ret None
  /\ fst (_request_async_embedding (tiring_network tagged) no_tiktoken "u" 1 "m"
            three_texts "key" "https://api.openai.com/v1" "24h" 60 3 [])
     = Raise (RetryError (RuntimeError "Batch Job Failed: expired")).
Proof.
  split.
  - assert (Hshort : (text_length five_sentences < 500000)%Z)
      by (vm_compute; reflexivity).
    erewrite (proj1 (proj2 (generate_never_raises (tiring_network tagged) no_tiktoken
                              "u" 1 "m" five_sentences "key"
                              "https://api.openai.com/v1" []))
                    _ _ Hshort).
    + reflexivity.
    + vm_compute. reflexivity.
  - erewrite (proj2 (proj2 (proj2 (generate_never_raises (tiring_network tagged)
                                     no_tiktoken "u" 1 "m" three_texts "key"
                                     "https://api.openai.com/v1" [])))
                    "24h" 60%Z 3%Z [] _ _
                    (firstn 1 three_batches)
                    (nth 1 three_batches (0, []))
                    (skipn 2 three_batches)).
    + reflexivity.
    + vm_compute. reflexivity.
    + econstructor; [vm_compute; reflexivity | constructor].
    + vm_compute. reflexivity.
Defined.

(** * Further properties *)

(** ** Chunks of a batch *)

Section ChunkShape.

Variables (lst : list string) (chunk_size : positive).

Lemma texts_from_nth (fuel i k o : nat) (chunk : list string) :
  nth_error (texts_from fuel i lst chunk_size) k = Some (o, chunk) ->
  o = i + k * Pos.to_nat chunk_size
  /\ o < List.length lst
  /\ chunk = slice lst o (o + Pos.to_nat chunk_size).
Proof.
  revert i k.
  induction fuel as [| fuel IH]; intros i k Hnth; simpl in Hnth.
  - destruct k; discriminate.
  - destruct (Nat.ltb_spec i (List.length lst)) as [Hlt | Hge].
    + destruct k as [| k]; simpl in Hnth.
      * injection Hnth as <- <-. repeat split; [lia | exact Hlt].
      * destruct (IH _ _ Hnth) as (Ho & Hlen & Hchunk).
        repeat split; [lia | exact Hlen | exact Hchunk].
    + destruct k; discriminate.
Qed.

Lemma texts_from_length (fuel i : nat) :
  List.length lst - i <= fuel ->
  List.length (texts_from fuel i lst chunk_size)
  = (List.length lst - i + Pos.to_nat chunk_size - 1) / Pos.to_nat chunk_size.
Proof.
  pose proof (Pos2Nat.is_pos chunk_size) as Hpos.
  revert i.
  induction fuel as [| fuel IH]; intros i Hfuel; simpl.
  - replace (List.length lst - i) with 0 by lia.
    symmetry. apply Nat.div_small. lia.
  - destruct (Nat.ltb_spec i (List.length lst)) as [Hlt | Hge].
    + simpl. rewrite IH by lia.
      destruct (Nat.le_gt_cases (Pos.to_nat chunk_size) (List.length lst - i))
        as [Hfull | Hpart].
      * replace (List.length lst - i + Pos.to_nat chunk_size - 1)
          with ((List.length lst - (i + Pos.to_nat chunk_size)
                 + Pos.to_nat chunk_size - 1) + 1 * Pos.to_nat chunk_size) by lia.
        rewrite Nat.div_add by lia. lia.
      * replace (List.length lst - (i + Pos.to_nat chunk_size)) with 0 by lia.
        replace (List.length lst - i + Pos.to_nat chunk_size - 1)
          with ((List.length lst - i - 1) + 1 * Pos.to_nat chunk_size) by lia.
        rewrite Nat.div_add by lia.
        rewrite !Nat.div_small by lia. reflexivity.
    + replace (List.length lst - i) with 0 by lia.
      symmetry. apply Nat.div_small. lia.
Qed.

Lemma slice_length (o : nat) :
  o < List.length lst ->
  1 <= List.length (slice lst o (o + Pos.to_nat chunk_size)) <= Pos.to_nat chunk_size.
Proof.
  pose proof (Pos2Nat.is_pos chunk_size) as Hpos.
  intros Ho. unfold slice.
  rewrite length_firstn, length_skipn. lia.
Qed.

End ChunkShape.

Lemma request_iterator_nth (texts : list string) (model uuid : string)
  (batch_idx : nat) (chunk_size : positive) (k : nat) (r : request) :
  nth_error (_request_iterator texts model uuid batch_idx chunk_size) k = Some r ->
  r = {| custom_id := make_custom_id uuid batch_idx (k * Pos.to_nat chunk_size);
         method := "POST";
         url := "/v1/embeddings";
         body := {| params_model := model;
                    params_input := firstn (Pos.to_nat chunk_size)
                                      (skipn (k * Pos.to_nat chunk_size) texts) |} |}
  /\ k * Pos.to_nat chunk_size < List.length texts.
Proof.
  unfold _request_iterator, _texts_iterator. intros Hnth.
  rewrite nth_error_map in Hnth.
  destruct (nth_error (texts_from (List.length texts) 0 texts chunk_size) k)
    as [[o chunk] |] eqn:Hk; [| discriminate].
  injection Hnth as <-.
  destruct (texts_from_nth texts chunk_size _ _ _ _ _ Hk) as (-> & Hlen & ->).
  simpl in *. split; [| exact Hlen].
  unfold slice.
  replace (k * Pos.to_nat chunk_size + Pos.to_nat chunk_size - k * Pos.to_nat chunk_size)
    with (Pos.to_nat chunk_size) by lia.
  reflexivity.
Qed.

(** X1: the chunks of [_request_iterator] hold the texts of the batch, all
    of them, once each and in their order. *)
Theorem chunks_hold_the_texts (texts : list string) (model uuid : string)
  (batch_idx : nat) (chunk_size : positive) :
  List.concat (map (fun r => params_input (body r))
                 (_request_iterator texts model uuid batch_idx chunk_size))
  = texts.
Proof.
  apply (request_iterator_texts model uuid chunk_size texts batch_idx).
Qed.

(** X2: the chunk at position [k] starts at the text [k * chunk_size], is
    named after this offset, and holds the next [chunk_size] texts, or the
    ones that are left: at least one and at most [chunk_size]. *)
Theorem chunk_at_position (texts : list string) (model uuid : string)
  (batch_idx : nat) (chunk_size : positive) (k : nat) (r : request) :
  nth_error (_request_iterator texts model uuid batch_idx chunk_size) k = Some r ->
  custom_id r = make_custom_id uuid batch_idx (k * Pos.to_nat chunk_size)
  /\ method r = "POST"
  /\ url r = "/v1/embeddings"
  /\ params_model (body r) = model
  /\ params_input (body r)
     = firstn (Pos.to_nat chunk_size) (skipn (k * Pos.to_nat chunk_size) texts)
  /\ 1 <= List.length (params_input (body r)) <= Pos.to_nat chunk_size.
Proof.
  intros Hnth.
  destruct (request_iterator_nth _ _ _ _ _ _ _ Hnth) as [-> Hlen]. simpl.
  repeat split; try reflexivity.
  - pose proof (Pos2Nat.is_pos chunk_size).
    rewrite length_firstn, length_skipn. lia.
  - rewrite length_firstn. lia.
Qed.

Lemma chunk_at_position_witness :
  custom_id {| custom_id := "batch_u_3_2"; method := "POST"; url := "/v1/embeddings";
               body := {| params_model := "m"; params_input := ["c"] |} |}
  = make_custom_id "u" 3 (1 * Pos.to_nat 2)
  /\ 1 <= List.length ["c"] <= Pos.to_nat 2.
Proof.
  destruct (chunk_at_position ["a"; "b"; "c"] "m" "u" 3 2 1
              {| custom_id := "batch_u_3_2"; method := "POST"; url := "/v1/embeddings";
                 body := {| params_model := "m"; params_input := ["c"] |} |}
              eq_refl) as (Hid & _ & _ & _ & _ & Hlen).
  split; [exact Hid | exact Hlen].
Defined.

(** X3: a batch of [n] texts has [n / chunk_size] chunks, rounded up; a
    batch without texts has none. *)
Theorem number_of_chunks (texts : list string) (model uuid : string)
  (batch_idx : nat) (chunk_size : positive) :
  List.length (_request_iterator texts model uuid batch_idx chunk_size)
  = (List.length texts + Pos.to_nat chunk_size - 1) / Pos.to_nat chunk_size
  /\ (_request_iterator texts model uuid batch_idx chunk_size = [] <-> texts = []).
Proof.
  assert (Hlen : List.length (_request_iterator texts model uuid batch_idx chunk_size)
                 = (List.length texts + Pos.to_nat chunk_size - 1) / Pos.to_nat chunk_size).
  { unfold _request_iterator, _texts_iterator. rewrite length_map.
    rewrite texts_from_length by lia. rewrite Nat.sub_0_r. reflexivity. }
  split; [exact Hlen |].
  pose proof (Pos2Nat.is_pos chunk_size) as Hpos.
  split.
  - intros Hnil. rewrite Hnil in Hlen.
    destruct texts as [| t texts]; [reflexivity | exfalso].
    change (List.length (t :: texts)) with (S (List.length texts)) in Hlen.
    change (List.length (@nil request)) with 0 in Hlen.
    replace (S (List.length texts) + Pos.to_nat chunk_size - 1)
      with (List.length texts + 1 * Pos.to_nat chunk_size) in Hlen by lia.
    rewrite Nat.div_add in Hlen by lia. lia.
  - intros ->. reflexivity.
Qed.

(** ** The custom_id of a chunk *)

Lemma str_of_nat_inj (a b : nat) : str_of_nat a = str_of_nat b -> a = b.
Proof.
  unfold str_of_nat. intros H.
  apply (f_equal NilEmpty.uint_of_string) in H.
  rewrite !NilEmpty.usu in H. injection H as H.
  apply (f_equal Nat.of_uint) in H.
  rewrite !DecimalNat.Unsigned.of_to in H. exact H.
Qed.

Lemma string_of_uint_digits (d : Decimal.uint) :
  has_char "_" (NilEmpty.string_of_uint d) = false.
Proof. induction d; simpl; auto. Qed.

Lemma append_cancel (p a b : string) : p ++ a = p ++ b -> a = b.
Proof.
  induction p as [| c p IH]; simpl; intros H; [exact H |].
  injection H as H. apply IH. exact H.
Qed.

Lemma split_at_underscore (s s' t t' : string) :
  has_char "_" s = false ->
  has_char "_" s' = false ->
  s ++ "_" ++ t = s' ++ "_" ++ t' ->
  s = s' /\ t = t'.
Proof.
  revert s'.
  induction s as [| c s IH]; intros [| c' s'] Hs Hs' Heq; simpl in *.
  - injection Heq as ->. split; reflexivity.
  - injection Heq as <- _. simpl in Hs'. discriminate.
  - injection Heq as -> _. simpl in Hs. discriminate.
  - injection Heq as -> Heq.
    apply orb_false_iff in Hs. apply orb_false_iff in Hs'.
    destruct (IH s' (proj2 Hs) (proj2 Hs') Heq) as [-> ->].
    split; reflexivity.
Qed.

Lemma make_custom_id_inj (uuid : string) (b i b' i' : nat) :
  make_custom_id uuid b i = make_custom_id uuid b' i' -> b = b' /\ i = i'.
Proof.
  unfold make_custom_id. intros H.
  apply (append_cancel "batch_") in H.
  apply append_cancel in H.
  apply (append_cancel "_") in H.
  apply split_at_underscore in H;
    [| apply string_of_uint_digits | apply string_of_uint_digits].
  destruct H as [Hb Hi].
  split; apply str_of_nat_inj; assumption.
Qed.

(** Every batch the loop yields is the chunking of some texts under the
    index of the batch. *)
Lemma batch_loop_shape (text2tokens : string -> result Z) (model uuid : string)
  (token_limit : Z) (chunk_size : positive) (texts current_request : list string)
  (current_tokens : Z) (first_idx batch_idx : nat) (batch : payload) :
  In (batch_idx, batch)
     (fst (batch_loop text2tokens model uuid token_limit chunk_size
             texts current_request current_tokens first_idx)) ->
  exists request_texts,
    batch = _request_iterator request_texts model uuid batch_idx chunk_size.
Proof.
  revert current_request current_tokens first_idx.
  induction texts as [| text rest IH];
    intros current_request current_tokens first_idx Hin; simpl in Hin.
  - destruct (nonempty current_request); simpl in Hin; [| contradiction].
    destruct Hin as [Heq | []]. injection Heq as <- <-.
    exists current_request. reflexivity.
  - destruct (text2tokens text) as [tokens | e]; [| contradiction].
    destruct (current_tokens + tokens >? token_limit)%Z.
    + simpl in Hin. destruct Hin as [Heq | Hin].
      * injection Heq as <- <-. exists current_request. reflexivity.
      * apply (IH _ _ _ Hin).
    + apply (IH _ _ _ Hin).
Qed.

Lemma nth_error_seq (start len k n : nat) :
  nth_error (seq start len) k = Some n -> n = start + k.
Proof.
  revert start k. induction len as [| len IH]; intros start k H; simpl in H.
  - destruct k; discriminate.
  - destruct k as [| k]; simpl in H.
    + injection H as <-. lia.
    + apply IH in H. lia.
Qed.

(** X4: in one run no two chunks have the same [custom_id], whatever their
    batches: the [custom_id] gives back the batch index and the offset, and
    chunks at two places of the plan of [_batch_iterator] have different
    ones. *)
Theorem custom_ids_are_unique (tk : tiktoken) (texts : list string)
  (model uuid : string) (token_limit : Z) (chunk_size : positive) :
  (forall b i b' i',
     make_custom_id uuid b i = make_custom_id uuid b' i' -> b = b' /\ i = i')
  /\ (forall k1 j1 k2 j2 b1 b2 p1 p2 r1 r2,
        let plan := fst (_batch_iterator tk texts model uuid token_limit chunk_size) in
        nth_error plan k1 = Some (b1, p1) -> nth_error p1 j1 = Some r1 ->
        nth_error plan k2 = Some (b2, p2) -> nth_error p2 j2 = Some r2 ->
        custom_id r1 = custom_id r2 ->
        k1 = k2 /\ j1 = j2).
Proof.
  split; [intros b i b' i'; apply make_custom_id_inj |].
  intros k1 j1 k2 j2 b1 b2 p1 p2 r1 r2 plan Hk1 Hj1 Hk2 Hj2 Hid.
  assert (Hidx : forall k b p, nth_error plan k = Some (b, p) -> b = k).
  { intros k b p Hk.
    pose proof (batch_loop_indices (_get_token_count tk model) model uuid token_limit
                  chunk_size texts [] 0%Z 0) as Hseq.
    simpl in Hseq. fold (_batch_iterator tk texts model uuid token_limit chunk_size) in Hseq.
    fold plan in Hseq.
    apply (map_nth_error fst) in Hk. rewrite Hseq in Hk.
    apply nth_error_seq in Hk. exact Hk. }
  assert (Hshape : forall k b p, nth_error plan k = Some (b, p) ->
                     exists ts, p = _request_iterator ts model uuid b chunk_size).
  { intros k b p Hk. apply nth_error_In in Hk.
    apply (batch_loop_shape _ _ _ _ _ _ _ _ _ _ _ Hk). }
  destruct (Hshape _ _ _ Hk1) as [ts1 ->].
  destruct (Hshape _ _ _ Hk2) as [ts2 ->].
  destruct (request_iterator_nth _ _ _ _ _ _ _ Hj1) as [-> _].
  destruct (request_iterator_nth _ _ _ _ _ _ _ Hj2) as [-> _].
  simpl in Hid. apply make_custom_id_inj in Hid. destruct Hid as [Hb Hj].
  rewrite (Hidx _ _ _ Hk1), (Hidx _ _ _ Hk2) in Hb.
  split; [exact Hb |].
  pose proof (Pos2Nat.is_pos chunk_size). nia.
Qed.

Lemma custom_ids_are_unique_witness :
  2 = 2 /\ 0 = 0.
Proof.
  apply (proj2 (custom_ids_are_unique no_tiktoken three_texts "m" "u" 3
                  default_chunk_size)
               2 0 2 0 2 2
               (_request_iterator ["cccccccc"] "m" "u" 2 default_chunk_size)
               (_request_iterator ["cccccccc"] "m" "u" 2 default_chunk_size)
               {| custom_id := "batch_u_2_0"; method := "POST"; url := "/v1/embeddings";
                  body := {| params_model := "m"; params_input := ["cccccccc"] |} |}
               {| custom_id := "batch_u_2_0"; method := "POST"; url := "/v1/embeddings";
                  body := {| params_model := "m"; params_input := ["cccccccc"] |} |});
    vm_compute; reflexivity.
Defined.

(** ** The plan of the batches *)

Section Plan.

Variables (text2tokens : string -> result Z) (model uuid : string).
Variables (token_limit : Z) (chunk_size : positive).

Lemma request_iterator_nil (texts : list string) (batch_idx : nat) :
  _request_iterator texts model uuid batch_idx chunk_size = [] -> texts = [].
Proof.
  intros Hnil.
  rewrite <- (request_iterator_texts model uuid chunk_size texts batch_idx).
  rewrite Hnil. reflexivity.
Qed.

(** The texts yielded are the texts gone through, in order; they are all
    the texts when the generator ends without an exception. *)
Lemma batch_loop_texts (texts current_request : list string)
  (current_tokens : Z) (batch_idx : nat) :
  let run := batch_loop text2tokens model uuid token_limit chunk_size
               texts current_request current_tokens batch_idx in
  (exists later, (plan_texts (fst run) ++ later)%list = (current_request ++ texts)%list)
  /\ (snd run = None -> plan_texts (fst run) = (current_request ++ texts)%list).
Proof.
  revert current_request current_tokens batch_idx.
  induction texts as [| text rest IH]; intros current_request current_tokens batch_idx;
    simpl.
  - destruct current_request as [| t cr]; simpl.
    + split; [exists []; reflexivity | reflexivity].
    + unfold plan_texts. simpl. rewrite request_iterator_texts, !app_nil_r.
      split; [exists []; rewrite app_nil_r; reflexivity | reflexivity].
  - destruct (text2tokens text) as [tokens | e]; simpl.
    + destruct (current_tokens + tokens >? token_limit)%Z; simpl.
      * destruct (IH [text] tokens (S batch_idx)) as [[later Hpre] Hall].
        unfold plan_texts in *. simpl. rewrite request_iterator_texts. split.
        -- exists later. rewrite <- app_assoc, Hpre. reflexivity.
        -- intros Hend. rewrite (Hall Hend). reflexivity.
      * destruct (IH (current_request ++ [text])%list (current_tokens + tokens)%Z
                    batch_idx) as [[later Hpre] Hall].
        split.
        -- exists later. rewrite Hpre, <- app_assoc. reflexivity.
        -- intros Hend. rewrite (Hall Hend), <- app_assoc. reflexivity.
    + split; [exists (current_request ++ text :: rest)%list; reflexivity | discriminate].
Qed.

Lemma batch_loop_ends (texts current_request : list string)
  (current_tokens : Z) (batch_idx : nat) :
  (forall text, In text texts -> exists tokens, text2tokens text = Ok tokens) ->
  snd (batch_loop text2tokens model uuid token_limit chunk_size
         texts current_request current_tokens batch_idx) = None.
Proof.
  revert current_request current_tokens batch_idx.
  induction texts as [| text rest IH]; intros current_request current_tokens batch_idx Hok;
    simpl.
  - destruct (nonempty current_request); reflexivity.
  - destruct (Hok text (or_introl eq_refl)) as [tokens ->].
    destruct (current_tokens + tokens >? token_limit)%Z; simpl;
      apply IH; intros t Ht; apply Hok; right; exact Ht.
Qed.

Lemma batch_loop_from (texts current_request : list string)
  (current_tokens : Z) (first_idx batch_idx : nat) (batch : payload) :
  In (batch_idx, batch)
     (fst (batch_loop text2tokens model uuid token_limit chunk_size
             texts current_request current_tokens first_idx)) ->
  first_idx <= batch_idx.
Proof.
  intros Hin.
  apply (in_map fst) in Hin. simpl in Hin.
  rewrite (batch_loop_indices text2tokens model uuid token_limit chunk_size
             texts current_request current_tokens first_idx) in Hin.
  apply in_seq in Hin. lia.
Qed.

(** Once the current batch has a text, no batch yielded is empty. *)
Lemma batch_loop_nonempty (texts current_request : list string)
  (current_tokens : Z) (first_idx batch_idx : nat) (batch : payload) :
  current_request <> [] ->
  In (batch_idx, batch)
     (fst (batch_loop text2tokens model uuid token_limit chunk_size
             texts current_request current_tokens first_idx)) ->
  batch <> [].
Proof.
  revert current_request current_tokens first_idx.
  induction texts as [| text rest IH];
    intros current_request current_tokens first_idx Hne Hin; simpl in Hin.
  - destruct (nonempty current_request); simpl in Hin; [| contradiction].
    destruct Hin as [Heq | []]. injection Heq as _ <-.
    intros Hnil. apply Hne. apply (request_iterator_nil _ _ Hnil).
  - destruct (text2tokens text) as [tokens | e]; [| contradiction].
    destruct (current_tokens + tokens >? token_limit)%Z.
    + simpl in Hin. destruct Hin as [Heq | Hin].
      * injection Heq as _ <-.
        intros Hnil. apply Hne. apply (request_iterator_nil _ _ Hnil).
      * apply (IH [text] tokens (S first_idx)); [discriminate | exact Hin].
    + apply (IH (current_request ++ [text])%list (current_tokens + tokens)%Z first_idx);
        [| exact Hin].
      intros Hnil. apply app_eq_nil in Hnil. destruct Hnil as [_ Hnil]. discriminate.
Qed.

(** The first batch yielded starts with the texts of the current batch. *)
Lemma first_yield_starts (texts current_request : list string)
  (current_tokens : Z) (first_idx batch_idx : nat) (batch : payload) :
  nth_error (fst (batch_loop text2tokens model uuid token_limit chunk_size
                    texts current_request current_tokens first_idx)) 0
  = Some (batch_idx, batch) ->
  exists more, payload_texts batch = (current_request ++ more)%list.
Proof.
  revert current_request current_tokens.
  induction texts as [| text rest IH]; intros current_request current_tokens Hnth;
    simpl in Hnth.
  - destruct (nonempty current_request); simpl in Hnth; [| discriminate].
    injection Hnth as _ <-. exists [].
    rewrite request_iterator_texts, app_nil_r. reflexivity.
  - destruct (text2tokens text) as [tokens | e]; [| discriminate].
    destruct (current_tokens + tokens >? token_limit)%Z.
    + simpl in Hnth. injection Hnth as _ <-. exists [].
      rewrite request_iterator_texts, app_nil_r. reflexivity.
    + destruct (IH _ _ Hnth) as [more Hmore].
      exists (text :: more). rewrite Hmore, <- app_assoc. reflexivity.
Qed.

(** A batch is closed only on a text that does not fit it. *)
Lemma batch_loop_greedy (texts current_request : list string)
  (current_tokens : Z) (first_idx k i i' : nat) (b b' : payload) :
  let plan := fst (batch_loop text2tokens model uuid token_limit chunk_size
                     texts current_request current_tokens first_idx) in
  aggregate text2tokens current_request = Ok current_tokens ->
  nth_error plan k = Some (i, b) ->
  nth_error plan (S k) = Some (i', b') ->
  exists total text more tokens,
    aggregate text2tokens (payload_texts b) = Ok total
    /\ payload_texts b' = text :: more
    /\ text2tokens text = Ok tokens
    /\ (token_limit < total + tokens)%Z.
Proof.
  revert current_request current_tokens first_idx k.
  induction texts as [| text rest IH];
    intros current_request current_tokens first_idx k plan Hagg Hk Hk'; subst plan;
    simpl in Hk, Hk'.
  - destruct (nonempty current_request); simpl in Hk'; destruct k; discriminate.
  - destruct (text2tokens text) as [tokens | e] eqn:Htok; [| destruct k; discriminate].
    destruct (Z.gtb_spec (current_tokens + tokens) token_limit) as [Hover | Hfits].
    + simpl in Hk, Hk'. destruct k as [| k].
      * simpl in Hk. injection Hk as _ <-.
        destruct (first_yield_starts _ _ _ _ _ _ Hk') as [more Hmore].
        exists current_tokens, text, more, tokens.
        rewrite request_iterator_texts.
        repeat split; [exact Hagg | exact Hmore | exact Htok | lia].
      * simpl in Hk.
        apply (IH [text] tokens (S first_idx) k); [| exact Hk | exact Hk'].
        simpl. rewrite Htok. simpl. f_equal. lia.
    + apply (IH (current_request ++ [text])%list (current_tokens + tokens)%Z first_idx k);
        [| exact Hk | exact Hk'].
      apply aggregate_snoc; assumption.
Qed.

End Plan.

(** X5: the batches of [_batch_iterator], taken in order, hold a prefix of
    the texts in their order; when the counter returns on every text the
    generator ends without an exception and the batches hold all the
    texts: none is lost, repeated or moved. *)
Theorem plan_holds_the_texts (tk : tiktoken) (texts : list string)
  (model uuid : string) (token_limit : Z) (chunk_size : positive) :
  let run := _batch_iterator tk texts model uuid token_limit chunk_size in
  (exists later, (plan_texts (fst run) ++ later)%list = texts)
  /\ ((forall text, In text texts ->
         exists tokens, _get_token_count tk model text = Ok tokens) ->
      snd run = None /\ plan_texts (fst run) = texts).
Proof.
  destruct (batch_loop_texts (_get_token_count tk model) model uuid token_limit
              chunk_size texts [] 0%Z 0) as [Hpre Hall].
  split; [exact Hpre |].
  intros Hok.
  assert (Hend : snd (_batch_iterator tk texts model uuid token_limit chunk_size) = None)
    by (apply batch_loop_ends; exact Hok).
  split; [exact Hend | apply Hall; exact Hend].
Qed.

Lemma plan_holds_the_texts_witness :
  snd (_batch_iterator no_tiktoken three_texts "m" "u" 3 default_chunk_size) = None
  /\ plan_texts (fst (_batch_iterator no_tiktoken three_texts "m" "u" 3
                        default_chunk_size)) = three_texts.
Proof.
  apply (proj2 (plan_holds_the_texts no_tiktoken three_texts "m" "u" 3
                  default_chunk_size)).
  intros text _. eexists. reflexivity.
Defined.

(** X6: a batch that [_batch_iterator] yields has an empty payload exactly
    when it is batch 0 and the first text alone is over the token limit;
    every other batch holds at least one text. *)
Theorem only_first_batch_can_be_empty (tk : tiktoken) (texts : list string)
  (model uuid : string) (token_limit : Z) (chunk_size : positive)
  (batch_idx : nat) (batch : payload) :
  In (batch_idx, batch)
     (fst (_batch_iterator tk texts model uuid token_limit chunk_size)) ->
  (batch = [] <->
   batch_idx = 0
   /\ exists text rest tokens,
        texts = text :: rest
        /\ _get_token_count tk model text = Ok tokens
        /\ (token_limit < tokens)%Z).
Proof.
  unfold _batch_iterator. intros Hin.
  destruct texts as [| text rest]; simpl in Hin; [contradiction |].
  destruct (_get_token_count tk model text) as [tokens | e] eqn:Htok;
    [| contradiction].
  destruct (Z.gtb_spec tokens token_limit) as [Hover | Hfits].
  - simpl in Hin. destruct Hin as [Heq | Hin].
    + injection Heq as <- <-. split; [| reflexivity].
      intros _. split; [reflexivity |].
      exists text, rest, tokens. repeat split; [exact Htok | lia].
    + pose proof (batch_loop_from _ _ _ _ _ _ _ _ _ _ _ Hin) as Hidx.
      assert (Hcur : [text] <> []) by discriminate.
      pose proof (batch_loop_nonempty _ _ _ _ _ _ _ _ _ _ _ Hcur Hin) as Hne.
      split; [intros Hnil; contradiction | intros [H0 _]; lia].
  - assert (Hcur : [text] <> []) by discriminate.
    pose proof (batch_loop_nonempty _ _ _ _ _ _ _ _ _ _ _ Hcur Hin) as Hne.
    split; [intros Hnil; contradiction |].
    intros (_ & text' & rest' & tokens' & Heq & Htok' & Hlt).
    injection Heq as <- <-. rewrite Htok in Htok'. injection Htok' as <-. lia.
Qed.

Lemma only_first_batch_can_be_empty_witness :
  @nil request = [] <->
  0 = 0
  /\ exists text rest tokens,
       one_long_text = text :: rest
       /\ _get_token_count no_tiktoken "m" text = Ok tokens
       /\ (3 < tokens)%Z.
Proof.
  apply (only_first_batch_can_be_empty no_tiktoken one_long_text "m" "u" 3
           default_chunk_size 0 []).
  vm_compute. left. reflexivity.
Defined.

(** X7: [_batch_iterator] closes a batch only on a text that does not fit
    it: of two batches that follow each other, the token count of the
    first one and of the first text of the second one are over the token
    limit together. *)
Theorem batches_are_filled (tk : tiktoken) (texts : list string)
  (model uuid : string) (token_limit : Z) (chunk_size : positive)
  (k i i' : nat) (b b' : payload) :
  let plan := fst (_batch_iterator tk texts model uuid token_limit chunk_size) in
  nth_error plan k = Some (i, b) ->
  nth_error plan (S k) = Some (i', b') ->
  exists total text more tokens,
    aggregate (_get_token_count tk model) (payload_texts b) = Ok total
    /\ payload_texts b' = text :: more
    /\ _get_token_count tk model text = Ok tokens
    /\ (token_limit < total + tokens)%Z.
Proof.
  intros plan Hk Hk'.
  apply (batch_loop_greedy (_get_token_count tk model) model uuid token_limit
           chunk_size texts [] 0%Z 0 k i i' b b' eq_refl Hk Hk').
Qed.

Lemma batches_are_filled_witness :
  exists total text more tokens,
    aggregate (_get_token_count no_tiktoken "m")
      (payload_texts (_request_iterator ["aaaaaaaa"] "m" "u" 0 default_chunk_size))
    = Ok total
    /\ payload_texts (_request_iterator ["bbbbbbbb"] "m" "u" 1 default_chunk_size)
       = text :: more
    /\ _get_token_count no_tiktoken "m" text = Ok tokens
    /\ (3 < total + tokens)%Z.
Proof.
  apply (batches_are_filled no_tiktoken three_texts "m" "u" 3 default_chunk_size
           0 0 1); vm_compute; reflexivity.
Defined.

(** ** The sort by custom_id *)

Lemma ltb_lt (a b : string) : String.ltb a b = true <-> String.compare a b = Lt.
Proof.
  unfold String.ltb. destruct (String.compare a b); split; congruence.
Qed.

Lemma ltb_irrefl (a : string) : String.ltb a a = false.
Proof.
  unfold String.ltb.
  replace (String.compare a a) with Eq; [reflexivity |].
  symmetry. apply OrderedTypeEx.String_as_OT.cmp_eq. reflexivity.
Qed.

Lemma ltb_asym (a b : string) : String.ltb a b = true -> String.ltb b a = false.
Proof.
  intros H. apply ltb_lt in H. unfold String.ltb.
  rewrite String.compare_antisym, H. reflexivity.
Qed.

Lemma ltb_trans (a b c : string) :
  String.ltb a b = true -> String.ltb b c = true -> String.ltb a c = true.
Proof.
  rewrite !ltb_lt. intros Hab Hbc.
  apply OrderedTypeEx.String_as_OT.cmp_lt.
  apply OrderedTypeEx.String_as_OT.cmp_lt in Hab, Hbc.
  apply (OrderedTypeEx.String_as_OT.lt_trans _ _ _ Hab Hbc).
Qed.

Lemma ltb_total (a b : string) :
  String.ltb a b = false -> String.ltb b a = false -> a = b.
Proof.
  unfold String.ltb. rewrite (String.compare_antisym b a).
  destruct (String.compare a b) eqn:Hab; simpl; try discriminate.
  intros _ _. apply String.compare_eq_iff. exact Hab.
Qed.

Lemma ltb_le_trans (a b c : string) :
  String.ltb b a = false -> String.ltb c b = false -> String.ltb c a = false.
Proof.
  intros Hab Hbc.
  destruct (String.ltb c a) eqn:Hca; [exfalso | reflexivity].
  destruct (String.ltb a b) eqn:Hab'.
  - rewrite (ltb_trans c a b Hca Hab') in Hbc. discriminate.
  - rewrite (ltb_total a b Hab' Hab) in Hca. congruence.
Qed.

Section Sort.

Context {A : Type}.

Lemma insert_sorted_perm (x : string * A) (l : list (string * A)) :
  Permutation (insert_sorted x l) (x :: l).
Proof.
  induction l as [| y l IH]; simpl; [reflexivity |].
  destruct (String.ltb (fst y) (fst x)); [| reflexivity].
  rewrite IH. apply perm_swap.
Qed.

Lemma sorted_perm (l : list (string * A)) : Permutation (sorted l) l.
Proof.
  induction l as [| x l IH]; simpl; [reflexivity |].
  rewrite insert_sorted_perm, IH. reflexivity.
Qed.

Lemma insert_sorted_ordered (x : string * A) (l : list (string * A)) :
  StronglySorted key_le l -> StronglySorted key_le (insert_sorted x l).
Proof.
  induction l as [| y l IH]; simpl; intros Hl.
  - constructor; constructor.
  - apply StronglySorted_inv in Hl. destruct Hl as [Hl Hy].
    destruct (String.ltb (fst y) (fst x)) eqn:Hyx.
    + constructor; [apply IH; exact Hl |].
      apply (Permutation_Forall (Permutation_sym (insert_sorted_perm x l))).
      constructor; [apply ltb_asym; exact Hyx | exact Hy].
    + constructor; [constructor; assumption |].
      constructor; [exact Hyx |].
      apply Forall_forall. intros z Hz.
      rewrite Forall_forall in Hy. specialize (Hy z Hz).
      unfold key_le in *. apply (ltb_le_trans _ (fst y)); assumption.
Qed.

Lemma sorted_ordered (l : list (string * A)) : StronglySorted key_le (sorted l).
Proof.
  induction l as [| x l IH]; simpl; [constructor |].
  apply insert_sorted_ordered. exact IH.
Qed.

Lemma ordered_strictly (l : list (string * A)) :
  NoDup (map fst l) -> StronglySorted key_le l -> StronglySorted key_lt l.
Proof.
  induction l as [| a l IH]; simpl; intros Hnd Hl; [constructor |].
  apply NoDup_cons_iff in Hnd. destruct Hnd as [Hnotin Hnd].
  apply StronglySorted_inv in Hl. destruct Hl as [Hl Ha].
  constructor; [apply IH; assumption |].
  apply Forall_forall. intros b Hb.
  rewrite Forall_forall in Ha. specialize (Ha b Hb).
  unfold key_le in Ha. unfold key_lt.
  destruct (String.ltb (fst a) (fst b)) eqn:Hab; [reflexivity | exfalso].
  apply Hnotin. rewrite (ltb_total _ _ Hab Ha). apply in_map. exact Hb.
Qed.

(** Two lists in strict order with the same items are one list. *)
Lemma strictly_ordered_unique (l1 l2 : list (string * A)) :
  StronglySorted key_lt l1 -> StronglySorted key_lt l2 -> Permutation l1 l2 -> l1 = l2.
Proof.
  revert l2.
  induction l1 as [| a l1 IH]; intros l2 H1 H2 Hperm.
  - apply Permutation_nil in Hperm. symmetry. exact Hperm.
  - destruct l2 as [| b l2];
      [apply Permutation_sym, Permutation_nil in Hperm; discriminate |].
    apply StronglySorted_inv in H1. destruct H1 as [H1 Ha].
    apply StronglySorted_inv in H2. destruct H2 as [H2 Hb].
    rewrite Forall_forall in Ha, Hb.
    assert (Hab : a = b).
    { assert (Hina : In a (b :: l2))
        by (apply (Permutation_in _ Hperm); left; reflexivity).
      assert (Hinb : In b (a :: l1))
        by (apply (Permutation_in _ (Permutation_sym Hperm)); left; reflexivity).
      destruct Hina as [Heq | Hina]; [symmetry; exact Heq |].
      destruct Hinb as [Heq | Hinb]; [exact Heq | exfalso].
      specialize (Ha b Hinb). specialize (Hb a Hina).
      unfold key_lt in Ha, Hb. rewrite (ltb_asym _ _ Ha) in Hb. discriminate. }
    subst b. f_equal.
    apply IH; [exact H1 | exact H2 | apply (Permutation_cons_inv Hperm)].
Qed.

Lemma strictly_ordered_nodup (l : list (string * A)) :
  StronglySorted key_lt l -> NoDup (map fst l).
Proof.
  induction l as [| a l IH]; simpl; intros Hl; [constructor |].
  apply StronglySorted_inv in Hl. destruct Hl as [Hl Ha].
  constructor; [| apply IH; exact Hl].
  intros Hin. apply in_map_iff in Hin. destruct Hin as (b & Hkey & Hb).
  rewrite Forall_forall in Ha. specialize (Ha b Hb).
  unfold key_lt in Ha. rewrite Hkey, ltb_irrefl in Ha. discriminate.
Qed.

(** With keys that are all different, [sorted] does not depend on the
    order of its input. *)
Lemma sorted_any_order (l l' : list (string * A)) :
  NoDup (map fst l) -> Permutation l l' -> sorted l = sorted l'.
Proof.
  intros Hnd Hperm.
  apply strictly_ordered_unique.
  - apply ordered_strictly; [| apply sorted_ordered].
    apply (Permutation_NoDup (l := map fst l)); [| exact Hnd].
    apply Permutation_map, Permutation_sym, sorted_perm.
  - apply ordered_strictly; [| apply sorted_ordered].
    apply (Permutation_NoDup (l := map fst l)); [| exact Hnd].
    apply Permutation_map.
    transitivity l'; [exact Hperm | apply Permutation_sym, sorted_perm].
  - transitivity l; [apply sorted_perm |].
    transitivity l'; [exact Hperm | apply Permutation_sym, sorted_perm].
Qed.

(** [sorted] gives back a list in strict order from any order of it. *)
Lemma sorted_restores (l p : list (string * A)) :
  StronglySorted key_lt p -> Permutation l p -> sorted l = p.
Proof.
  intros Hp Hperm.
  apply strictly_ordered_unique; [| exact Hp |].
  - apply ordered_strictly; [| apply sorted_ordered].
    apply (Permutation_NoDup (l := map fst p)); [| apply strictly_ordered_nodup; exact Hp].
    apply Permutation_map.
    transitivity l; [apply Permutation_sym, Hperm | apply Permutation_sym, sorted_perm].
  - transitivity l; [apply sorted_perm | exact Hperm].
Qed.

End Sort.

(** ** The assembly of an output file *)

Lemma embeddings_of_answer (embed : string -> json) (r : request) :
  embeddings_of (answer embed r) = Ok (map embed (params_input (body r))).
Proof.
  unfold embeddings_of, answer. simpl.
  induction (params_input (body r)) as [| text texts IH]; simpl; [reflexivity |].
  rewrite IH. reflexivity.
Qed.

(** The output of the records of some requests, in any order of the lines:
    the embeddings of the requests in the order of their [custom_id]s. *)
Lemma assemble_answers (embed : string -> json) (batch : payload) :
  batch <> [] ->
  assemble (map (fun r => Some (answer embed r)) batch)
  = Ok (List.concat (map (fun r => map embed (params_input (body r)))
                       (map snd (sorted (keyed batch))))).
Proof.
  intros Hne. unfold assemble.
  replace (split_lines (map (fun r => Some (answer embed r)) batch))
    with (map Some (map (answer embed) batch))
    by (rewrite map_map; destruct batch; [contradiction | reflexivity]).
  rewrite loads_parsed. simpl.
  rewrite (rmap_map_ok itemgetter_custom_id (answer embed)
             (fun r => (custom_id r, answer embed r))) by reflexivity.
  simpl.
  replace (map (fun r => (custom_id r, answer embed r)) batch)
    with (map (fun x : string * request => (fst x, answer embed (snd x))) (keyed batch))
    by (unfold keyed; rewrite map_map; reflexivity).
  rewrite (sorted_map (fun x : string * request => answer embed (snd x))), map_map.
  simpl.
  rewrite <- (map_map snd (answer embed)).
  rewrite (rmap_map_ok embeddings_of (answer embed)
             (fun r => map embed (params_input (body r))))
    by apply embeddings_of_answer.
  reflexivity.
Qed.

Lemma ids_ascend_keyed (batch : payload) :
  ids_ascend batch -> StronglySorted key_lt (keyed batch).
Proof.
  unfold ids_ascend, keyed.
  induction 1 as [| r batch _ IH Hr]; simpl; constructor; [exact IH |].
  apply Forall_map. apply (Forall_impl _ (fun a H => H) Hr).
Qed.

Lemma keyed_requests (batch : payload) : map snd (keyed batch) = batch.
Proof.
  unfold keyed. rewrite map_map. simpl. apply map_id.
Qed.

Lemma assemble_in_request_order (embed : string -> json) (batch : payload)
  (output_content : list line) :
  batch <> [] ->
  ids_ascend batch ->
  Permutation output_content (map (fun r => Some (answer embed r)) batch) ->
  assemble output_content = Ok (map embed (payload_texts batch)).
Proof.
  intros Hne Hasc Hperm.
  apply Permutation_map_inv in Hperm. destruct Hperm as (batch' & -> & Hperm).
  assert (Hne' : batch' <> []).
  { intros ->. apply Permutation_sym, Permutation_nil in Hperm. contradiction. }
  rewrite (assemble_answers embed batch' Hne').
  rewrite (sorted_restores (keyed batch') (keyed batch) (ids_ascend_keyed batch Hasc))
    by (unfold keyed; apply Permutation_map, Permutation_sym, Hperm).
  rewrite keyed_requests.
  unfold payload_texts. rewrite concat_map, map_map. reflexivity.
Qed.

(** X8: when the [custom_id]s of the records are all different, the
    assembly does not depend on the order of the lines of the output
    file. *)
Theorem assembly_ignores_line_order (records records' : list (string * list json)) :
  NoDup (map fst records) ->
  Permutation records records' ->
  assemble (map (fun r => Some (record r)) records)
  = assemble (map (fun r => Some (record r)) records').
Proof.
  intros Hnd Hperm.
  destruct records as [| r records].
  - apply Permutation_nil in Hperm. subst records'. reflexivity.
  - assert (Hne' : records' <> []).
    { intros ->. apply Permutation_sym, Permutation_nil in Hperm. discriminate. }
    rewrite (assemble_records (r :: records)) by discriminate.
    rewrite (assemble_records records' Hne').
    rewrite (sorted_any_order (r :: records) records' Hnd Hperm). reflexivity.
Qed.

Lemma assembly_ignores_line_order_witness :
  assemble (map (fun r => Some (record r))
              [("batch_u_0_2048", [tagged "b"]); ("batch_u_0_0", [tagged "a"])])
  = assemble (map (fun r => Some (record r))
                [("batch_u_0_0", [tagged "a"]); ("batch_u_0_2048", [tagged "b"])]).
Proof.
  apply assembly_ignores_line_order.
  - constructor; [| constructor; [| constructor]]; simpl.
    + intros [H | []]. discriminate.
    + intros [].
  - apply perm_swap.
Defined.

(** X9: when the [custom_id]s of the requests of a batch go up as strings,
    the assembly of an output file that holds the records of the requests,
    in any order of the lines, is the list of the embeddings of the texts
    of the batch, in the order of the texts. *)
Theorem assembly_restores_text_order (embed : string -> json) (batch : payload)
  (output_content : list line) :
  batch <> [] ->
  ids_ascend batch ->
  Permutation output_content (map (fun r => Some (answer embed r)) batch) ->
  assemble output_content = Ok (map embed (payload_texts batch)).
Proof. apply assemble_in_request_order. Qed.

Lemma assembly_restores_text_order_witness :
  assemble [Some (answer tagged
                    {| custom_id := "batch_u_0_2"; method := "POST";
                       url := "/v1/embeddings";
                       body := {| params_model := "m"; params_input := ["c"] |} |});
            Some (answer tagged
                    {| custom_id := "batch_u_0_0"; method := "POST";
                       url := "/v1/embeddings";
                       body := {| params_model := "m"; params_input := ["a"; "b"] |} |})]
  = Ok [tagged "a"; tagged "b"; tagged "c"].
Proof.
  apply (assembly_restores_text_order tagged
           (_request_iterator ["a"; "b"; "c"] "m" "u" 0 2)).
  - discriminate.
  - repeat constructor.
  - apply perm_swap.
Defined.

Lemma strongly_sorted_of_nth {A} (R : A -> A -> Prop) (l : list A) :
  (forall i j a b, i < j -> nth_error l i = Some a -> nth_error l j = Some b -> R a b) ->
  StronglySorted R l.
Proof.
  induction l as [| x l IH]; intros Hnth; constructor.
  - apply IH. intros i j a b Hij Hi Hj.
    apply (Hnth (S i) (S j) a b); [lia | exact Hi | exact Hj].
  - apply Forall_forall. intros y Hy.
    apply In_nth_error in Hy. destruct Hy as [j Hj].
    apply (Hnth 0 (S j) x y); [lia | reflexivity | exact Hj].
Qed.

Lemma strongly_sorted_nth {A} (R : A -> A -> Prop) (l : list A) (i j : nat) (a b : A) :
  StronglySorted R l ->
  i < j -> nth_error l i = Some a -> nth_error l j = Some b -> R a b.
Proof.
  intros Hl. revert i j.
  induction Hl as [| x l Hl IH Hx]; intros i j Hij Hi Hj.
  - destruct i; discriminate.
  - destruct j as [| j]; [lia |]. simpl in Hj.
    destruct i as [| i]; simpl in Hi.
    + injection Hi as <-. rewrite Forall_forall in Hx.
      apply Hx. apply (nth_error_In _ _ Hj).
    + apply (IH i j); [lia | exact Hi | exact Hj].
Qed.

Lemma request_iterator_length (texts : list string) (model uuid : string)
  (batch_idx : nat) (chunk_size : positive) :
  List.length (_request_iterator texts model uuid batch_idx chunk_size)
  = (List.length texts + Pos.to_nat chunk_size - 1) / Pos.to_nat chunk_size.
Proof.
  unfold _request_iterator, _texts_iterator. rewrite length_map.
  rewrite texts_from_length by lia. rewrite Nat.sub_0_r. reflexivity.
Qed.

Lemma default_ids_ascend (texts : list string) (model uuid : string) (batch_idx : nat) :
  List.length texts <= 5 * 2048 ->
  ids_ascend (_request_iterator texts model uuid batch_idx default_chunk_size).
Proof.
  intros Hlen. apply strongly_sorted_of_nth.
  intros i j a b Hij Hi Hj.
  destruct (request_iterator_nth _ _ _ _ _ _ _ Hi) as [-> _].
  destruct (request_iterator_nth _ _ _ _ _ _ _ Hj) as [-> Hjlen].
  simpl. rewrite custom_id_order.
  change (Pos.to_nat default_chunk_size) with 2048 in *.
  assert (Hj4 : j <= 4) by lia.
  destruct j as [| [| [| [| [| j]]]]]; try lia;
    destruct i as [| [| [| [| i]]]]; try lia; vm_compute; reflexivity.
Qed.

(** X10: with the chunk size 2048 of the module, the [custom_id]s of the
    chunks of a batch go up as strings exactly when the batch has at most
    10240 texts, that is five chunks. *)
Theorem ids_ascend_up_to_five_chunks (texts : list string) (model uuid : string)
  (batch_idx : nat) :
  ids_ascend (_request_iterator texts model uuid batch_idx default_chunk_size)
  <-> List.length texts <= 5 * 2048.
Proof.
  split; [| apply default_ids_ascend].
  intros Hasc.
  destruct (Nat.le_gt_cases (List.length texts) (5 * 2048)) as [Hle | Hgt];
    [exact Hle | exfalso].
  pose proof (request_iterator_length texts model uuid batch_idx default_chunk_size)
    as Hcount.
  change (Pos.to_nat default_chunk_size) with 2048 in Hcount.
  assert (Hsix : 6 <= List.length
                        (_request_iterator texts model uuid batch_idx default_chunk_size)).
  { rewrite Hcount. apply Nat.div_le_lower_bound; lia. }
  destruct (nth_error (_request_iterator texts model uuid batch_idx default_chunk_size) 1)
    as [r1 |] eqn:H1; [| apply nth_error_None in H1; lia].
  destruct (nth_error (_request_iterator texts model uuid batch_idx default_chunk_size) 5)
    as [r5 |] eqn:H5; [| apply nth_error_None in H5; lia].
  pose proof (strongly_sorted_nth _ _ 1 5 r1 r5 Hasc ltac:(lia) H1 H5) as Hlt.
  destruct (request_iterator_nth _ _ _ _ _ _ _ H1) as [-> _].
  destruct (request_iterator_nth _ _ _ _ _ _ _ H5) as [-> _].
  simpl in Hlt. rewrite custom_id_order in Hlt.
  vm_compute in Hlt. discriminate.
Qed.

(** ** The polling loop *)

Section Polling.

Variables (client : OpenAI) (job_id : string) (wait_interval : Z).

Lemma poll_through_pending (n fuel : nat) (h h' : history) :
  pending_polls client job_id wait_interval n h h' ->
  poll (n + fuel) client job_id wait_interval h
  = poll fuel client job_id wait_interval h'
  /\ sleeps h' = sleeps h + n
  /\ polls h' = polls h + n
  /\ uploads h' = uploads h
  /\ last_upload h' = last_upload h.
Proof.
  induction 1 as [h | n h h' b Hget Hready Hterm _ IH].
  - repeat split; lia.
  - destruct IH as (Hpoll & Hs & Hp & Hu & Hl).
    change (S n + fuel) with (S (n + fuel)).
    rewrite (poll_again client wait_interval (n + fuel) job_id h b Hget Hready Hterm).
    split; [exact Hpoll |].
    unfold sleeps, polls, uploads in *. simpl in *. repeat split; try lia. exact Hl.
Qed.

Lemma poll_completed (fuel : nat) (h : history) (b : Batch) (id : string)
  (output_content : list line) :
  batches_retrieve client h job_id = Ok b ->
  ready b = Some id ->
  files_content client (Log "Batch Job Completed" :: BatchesRetrieve job_id :: h) id
  = Ok output_content ->
  poll (S fuel) client job_id wait_interval h
  = assembled output_content
      (FilesContent id :: Log "Batch Job Completed" :: BatchesRetrieve job_id :: h).
Proof.
  intros Hget Hready Hcontent.
  simpl. unfold bind at 1, call at 1, lift at 1. rewrite Hget. unfold ret at 1.
  rewrite Hready.
  unfold bind at 1, emit at 1.
  unfold bind at 1, call at 1, lift at 1. rewrite Hcontent. unfold ret at 1.
  unfold assembled, lift.
  destruct (assemble output_content); reflexivity.
Qed.

End Polling.

(** X11: the loop of [_process_one_batch] has no bound of its own on the
    number of polls: after [n] polls that find the job pending, with a sleep
    of [wait_interval] after each, a poll that finds it complete with an
    output file ends the loop with the assembly of this file, and a poll
    that finds it failed, expired or cancelled ends it with
    [RuntimeError]. *)
Theorem poll_waits_for_the_job (client : OpenAI) (job_id : string)
  (wait_interval : Z) (n fuel : nat) (h h' : history) (b : Batch) :
  pending_polls client job_id wait_interval n h h' ->
  batches_retrieve client h' job_id = Ok b ->
  sleeps h' = sleeps h + n
  /\ (forall id output_content,
        ready b = Some id ->
        files_content client (Log "Batch Job Completed" :: BatchesRetrieve job_id :: h') id
        = Ok output_content ->
        poll (n + S fuel) client job_id wait_interval h
        = assembled output_content
            (FilesContent id :: Log "Batch Job Completed"
               :: BatchesRetrieve job_id :: h'))
  /\ (terminal_failure (status b) = true ->
      poll (n + S fuel) client job_id wait_interval h
      = (Raise (RuntimeError ("Batch Job Failed: " ++ status_name (status b))),
         BatchesRetrieve job_id :: h')).
Proof.
  intros Hpending Hget.
  destruct (poll_through_pending client job_id wait_interval n (S fuel) h h' Hpending)
    as (Hpoll & Hs & _).
  split; [exact Hs | split].
  - intros id output_content Hready Hcontent.
    rewrite Hpoll. apply (poll_completed _ _ _ _ _ b); assumption.
  - intros Hterm. rewrite Hpoll. apply poll_failure; assumption.
Qed.

Lemma poll_waits_for_the_job_witness :
  sleeps after_two_polls = sleeps after_upload + 2
  /\ poll (2 + 1) (slow_client tagged) "job" 30 after_upload
     = (Ret [tagged "hello"],
        FilesContent "file-out" :: Log "Batch Job Completed"
          :: BatchesRetrieve "job" :: after_two_polls).
Proof.
  assert (Hpending : pending_polls (slow_client tagged) "job" 30 2
                       after_upload after_two_polls).
  { eapply pending_more; [reflexivity | reflexivity | reflexivity |].
    eapply pending_more; [reflexivity | reflexivity | reflexivity |].
    apply pending_none. }
  destruct (poll_waits_for_the_job (slow_client tagged) "job" 30 2 0
              after_upload after_two_polls
              {| batch_id := "job"; status := completed;
                 output_file_id := Some "file-out" |}
              Hpending eq_refl) as (Hsleeps & Hdone & _).
  split; [exact Hsleeps |].
  apply (Hdone "file-out" [Some (answer tagged
                                   {| custom_id := "batch_u_0_0"; method := "POST";
                                      url := "/v1/embeddings";
                                      body := {| params_model := "m";
                                                 params_input := ["hello"] |} |})]);
    reflexivity.
Defined.

(** ** A batch against a provider that answers every request *)

Section Answered.

Variables (client : OpenAI) (embed : string -> json) (uuid : string).
Variables (completion_window : string) (wait_interval : Z) (bound : nat).

Hypothesis Hup : accepts_uploads client.
Hypothesis Hjob : accepts_jobs client.
Hypothesis Hdone : completes_within client wait_interval bound.
Hypothesis Hanswers : answers_every_request client embed.

Lemma process_answered (fuel batch_idx : nat) (batch : payload) (h : history) :
  bound < fuel ->
  batch <> [] ->
  ids_ascend batch ->
  exists h',
    _process_one_batch fuel client uuid batch_idx batch completion_window
      wait_interval h
    = (Ret (map embed (payload_texts batch)), h')
    /\ uploads h' = uploads h + 1.
Proof.
  intros Hfuel Hne Hasc.
  destruct (Hup h ("batch_" ++ uuid ++ "_" ++ str_of_nat batch_idx ++ ".jsonl") batch)
    as [f Hf].
  destruct (Hjob (FilesCreate ("batch_" ++ uuid ++ "_" ++ str_of_nat batch_idx ++ ".jsonl")
                    batch :: h)
                 (file_id f) "/v1/embeddings" completion_window) as [job Hj].
  destruct (Hdone (BatchesCreate (file_id f) "/v1/embeddings" completion_window
                     :: FilesCreate ("batch_" ++ uuid ++ "_" ++ str_of_nat batch_idx
                                     ++ ".jsonl") batch :: h)
                  (batch_id job))
    as (n & h3 & b & id & Hn & Hpending & Hget & Hready).
  destruct (Hanswers (Log "Batch Job Completed" :: BatchesRetrieve (batch_id job) :: h3) id)
    as (output_content & Hcontent & Hperm).
  destruct (poll_through_pending client (batch_id job) wait_interval n (S (fuel - S n))
              _ h3 Hpending) as (Hpoll & _ & _ & Hu & Hlast).
  simpl in Hperm, Hlast. rewrite Hlast in Hperm.
  exists (FilesContent id :: Log "Batch Job Completed"
            :: BatchesRetrieve (batch_id job) :: h3).
  split.
  - unfold _process_one_batch, retry.
    apply retry_from_not_raised; [| discriminate].
    rewrite (process_attempt_polls client uuid batch_idx batch completion_window
               wait_interval fuel h f job Hf Hj).
    replace fuel with (n + S (fuel - S n)) at 1 by lia.
    rewrite Hpoll.
    rewrite (poll_completed client (batch_id job) wait_interval _ h3 b id
               output_content Hget Hready Hcontent).
    unfold assembled.
    rewrite (assemble_in_request_order embed batch output_content Hne Hasc Hperm).
    reflexivity.
  - unfold uploads in *. simpl in *. lia.
Qed.

End Answered.

(** X12: against a provider that takes every upload and job, completes
    every job within [bound] pending polls and writes one record a request,
    in any order of the lines, [_process_one_batch] with more than [bound]
    polls to go returns, for a batch with requests whose [custom_id]s go up
    as strings, the embeddings of the texts of the batch in the order of
    the texts, after a single upload. *)
Theorem batch_embeddings_in_text_order (client : OpenAI) (embed : string -> json)
  (uuid completion_window : string) (wait_interval : Z) (bound fuel batch_idx : nat)
  (batch : payload) (h : history) :
  accepts_uploads client ->
  accepts_jobs client ->
  completes_within client wait_interval bound ->
  answers_every_request client embed ->
  bound < fuel ->
  batch <> [] ->
  ids_ascend batch ->
  exists h',
    _process_one_batch fuel client uuid batch_idx batch completion_window
      wait_interval h
    = (Ret (map embed (payload_texts batch)), h')
    /\ uploads h' = uploads h + 1.
Proof.
  intros Hup Hjob Hdone Hanswers.
  apply (process_answered client embed uuid completion_window wait_interval bound
           Hup Hjob Hdone Hanswers).
Qed.

Lemma prompt_client_uploads (embed : string -> json) :
  accepts_uploads (prompt_client embed).
Proof. intros h name batch. eexists. reflexivity. Qed.

Lemma prompt_client_jobs (embed : string -> json) :
  accepts_jobs (prompt_client embed).
Proof. intros h a b c. eexists. reflexivity. Qed.

Lemma prompt_client_completes (embed : string -> json) (wait_interval : Z) :
  completes_within (prompt_client embed) wait_interval 0.
Proof.
  intros h job_id.
  exists 0, h,
    {| batch_id := "job"; status := completed; output_file_id := Some "file-out" |},
    "file-out".
  repeat split; [lia | constructor].
Qed.

Lemma prompt_client_answers (embed : string -> json) :
  answers_every_request (prompt_client embed) embed.
Proof. intros h id. eexists. split; [reflexivity | apply Permutation_refl]. Qed.

(** The two paths of [path_by_text_length] on five sentences and on one
    text of 500000 characters, which the prompt provider answers. *)
Lemma path_by_text_length_witness :
  generate_openai_batch_embeddings (prompt_network tagged) no_tiktoken "u" 1 "m"
    five_sentences "key" "https://api.openai.com/v1" []
  = caught (_request_sync_embedding (prompt_network tagged) "https://api.openai.com/v1"
              "key" five_sentences "m" (logged_sync []))
  /\ generate_openai_batch_embeddings (prompt_network tagged) no_tiktoken "u" 1 "m"
       [long_text] "key" "https://api.openai.com/v1" []
     = caught (_request_async_embedding (prompt_network tagged) no_tiktoken "u" 1 "m"
                 [long_text] "key" "https://api.openai.com/v1" "24h" 60 1000000
                 (logged_async []))
  /\ exists h',
       _request_async_embedding (prompt_network tagged) no_tiktoken "u" 1 "m"
         [long_text] "key" "https://api.openai.com/v1" "24h" 60 1000000
         (logged_async [])
       = (Ret [tagged long_text], h').
Proof.
  assert (Hshort : (text_length five_sentences < 500000)%Z)
    by (vm_compute; reflexivity).
  assert (Hlong : (500000 <= text_length [long_text])%Z)
    by (vm_compute; discriminate).
  assert (Hfits : (len long_text / 4 >? 1000000)%Z = false)
    by (vm_compute; reflexivity).
  assert (Hplan : _batch_iterator no_tiktoken [long_text] "m" "u" 1000000
                    default_chunk_size
                  = ([(0, _request_iterator [long_text] "m" "u" 0 default_chunk_size)],
                     None)).
  { unfold _batch_iterator, _get_token_count, batch_loop, rough_estimate.
    cbn [encoding_for_model get_encoding no_tiktoken Z.add].
    rewrite Hfits. reflexivity. }
  destruct (proj2 (path_by_text_length (prompt_network tagged) no_tiktoken "u" 1 "m"
                     [long_text] "key" "https://api.openai.com/v1" [])
                  Hlong) as (Hgen & _ & _ & Hreturns & _).
  split; [| split].
  - exact (proj1 (proj1 (path_by_text_length (prompt_network tagged) no_tiktoken "u" 1
                           "m" five_sentences "key" "https://api.openai.com/v1" [])
                        Hshort)).
  - exact Hgen.
  - assert (Hne : _request_iterator [long_text] "m" "u" 0 default_chunk_size <> [])
      by discriminate.
    assert (Hasc : ids_ascend
                     (_request_iterator [long_text] "m" "u" 0 default_chunk_size))
      by (repeat constructor).
    assert (Hfuel : 0 < 1) by lia.
    destruct (process_answered (prompt_client tagged) tagged "u" "24h" 60 0
                (prompt_client_uploads tagged) (prompt_client_jobs tagged)
                (prompt_client_completes tagged 60) (prompt_client_answers tagged)
                1 0 (_request_iterator [long_text] "m" "u" 0 default_chunk_size)
                (logged_async []) Hfuel Hne Hasc) as (h' & Hrun & _).
    rewrite request_iterator_texts in Hrun.
    exists h'.
    apply (proj2 (Hreturns [tagged long_text] h')).
    exists [[tagged long_text]].
    rewrite Hplan.
    split; [| split; reflexivity].
    cbn [fst].
    eapply runs_next; [exact Hrun | apply runs_none].
Defined.

Lemma batch_embeddings_in_text_order_witness :
  exists h',
    _process_one_batch 1 (prompt_client tagged) "u" 0 one_text_batch "24h" 30 []
    = (Ret (map tagged (payload_texts one_text_batch)), h')
    /\ uploads h' = uploads [] + 1.
Proof.
  apply (batch_embeddings_in_text_order (prompt_client tagged) tagged "u" "24h" 30 0 1 0
           one_text_batch []
           (prompt_client_uploads tagged) (prompt_client_jobs tagged)
           (prompt_client_completes tagged 30) (prompt_client_answers tagged)).
  - lia.
  - discriminate.
  - repeat constructor.
Defined.

(** ** The asynchronous path against a provider that answers every request *)

Lemma for_each_all {A B} (f : A -> M B) (g : A -> B) (l : list A) :
  (forall a, In a l -> forall h, exists h', f a h = (Ret (g a), h')) ->
  forall h, exists h', for_each l f h = (Ret (map g l), h').
Proof.
  induction l as [| a l IH]; intros Hf h; simpl.
  - exists h. reflexivity.
  - destruct (Hf a (or_introl eq_refl) h) as [h1 Ha].
    destruct (IH (fun x Hx => Hf x (or_intror Hx)) h1) as [h2 Hl].
    exists h2. unfold bind at 1. rewrite Ha. unfold bind at 1. rewrite Hl. reflexivity.
Qed.

Lemma in_concat_length {A B} (f : A -> list B) (l : list A) (a : A) :
  In a l -> List.length (f a) <= List.length (List.concat (map f l)).
Proof.
  induction l as [| x l IH]; simpl; intros Hin; [contradiction |].
  rewrite length_app.
  destruct Hin as [-> | Hin]; [lia | specialize (IH Hin); lia].
Qed.

(** With a first text within the limit no batch of the plan is empty. *)
Lemma plan_nonempty (tk : tiktoken) (texts : list string) (model uuid : string)
  (token_limit : Z) (chunk_size : positive) (batch_idx : nat) (batch : payload) :
  (forall text rest, texts = text :: rest ->
     exists tokens, _get_token_count tk model text = Ok tokens
                    /\ (tokens <= token_limit)%Z) ->
  In (batch_idx, batch)
     (fst (_batch_iterator tk texts model uuid token_limit chunk_size)) ->
  batch <> [].
Proof.
  unfold _batch_iterator. intros Hfirst Hin.
  destruct texts as [| text rest]; simpl in Hin; [contradiction |].
  destruct (Hfirst text rest eq_refl) as (tokens & Htok & Hle).
  rewrite Htok in Hin.
  destruct (Z.gtb_spec tokens token_limit) as [Hover | _]; [lia |].
  assert (Hcur : [text] <> []) by discriminate.
  apply (batch_loop_nonempty _ _ _ _ _ _ _ _ _ _ _ Hcur Hin).
Qed.

Section AnsweredRun.

Variables (net : network) (tk : tiktoken) (embed : string -> json).
Variables (uuid model key url completion_window : string).
Variables (wait_interval token_limit : Z) (bound fuel : nat) (texts : list string).

Hypothesis Hup : accepts_uploads (connect net key url).
Hypothesis Hjob : accepts_jobs (connect net key url).
Hypothesis Hdone : completes_within (connect net key url) wait_interval bound.
Hypothesis Hanswers : answers_every_request (connect net key url) embed.
Hypothesis Hfuel : bound < fuel.
Hypothesis Hcount : forall text, In text texts ->
                      exists tokens, _get_token_count tk model text = Ok tokens.
Hypothesis Hfirst : forall text rest, texts = text :: rest ->
                      exists tokens, _get_token_count tk model text = Ok tokens
                                     /\ (tokens <= token_limit)%Z.
Hypothesis Hlen : List.length texts <= 5 * 2048.

Lemma async_answered (h : history) :
  exists h',
    _request_async_embedding net tk uuid fuel model texts key url
      completion_window wait_interval token_limit h
    = (Ret (map embed texts), h').
Proof.
  destruct (batch_loop_texts (_get_token_count tk model) model uuid token_limit
              default_chunk_size texts [] 0%Z 0) as [_ Hall].
  pose proof (batch_loop_ends (_get_token_count tk model) model uuid token_limit
                default_chunk_size texts [] 0%Z 0 Hcount) as Hend.
  specialize (Hall Hend). simpl in Hall.
  fold (_batch_iterator tk texts model uuid token_limit default_chunk_size) in Hall, Hend.
  unfold _request_async_embedding.
  destruct (for_each_all
              (fun '(batch_idx, batch) =>
                 _process_one_batch fuel (connect net key url) uuid batch_idx batch
                   completion_window wait_interval)
              (fun indexed : nat * payload => map embed (payload_texts (snd indexed)))
              (fst (_batch_iterator tk texts model uuid token_limit default_chunk_size)))
    with (h := h) as [h' Hrun].
  - intros [batch_idx batch] Hin h0. simpl.
    destruct (process_answered (connect net key url) embed uuid completion_window
                wait_interval bound Hup Hjob Hdone Hanswers fuel batch_idx batch h0)
      as (h1 & Hrun & _).
    + exact Hfuel.
    + apply (plan_nonempty tk texts model uuid token_limit default_chunk_size
               batch_idx batch Hfirst Hin).
    + destruct (batch_loop_shape _ _ _ _ _ _ _ _ _ _ _ Hin) as [ts Hshape].
      rewrite Hshape. apply default_ids_ascend.
      pose proof (in_concat_length (fun indexed : nat * payload =>
                                      payload_texts (snd indexed)) _ _ Hin) as Hpart.
      fold (plan_texts (fst (_batch_iterator tk texts model uuid token_limit
                               default_chunk_size))) in Hpart.
      rewrite Hall in Hpart. simpl in Hpart.
      rewrite Hshape, request_iterator_texts in Hpart. lia.
    + exists h1. exact Hrun.
  - exists h'. unfold bind at 1. rewrite Hrun. rewrite Hend.
    unfold ret. f_equal. f_equal.
    rewrite <- Hall at 2. unfold plan_texts.
    rewrite concat_map, map_map. reflexivity.
Qed.

End AnsweredRun.

(** X13: against a provider that takes every upload and job, completes
    every job within [bound] pending polls and writes one record a request
    in any order, [_request_async_embedding] returns one embedding a text,
    the embedding at position [k] being the one of text [k], when the
    counter returns on every text, the first text is within the token limit
    and there are at most 10240 texts. *)
Theorem async_embeddings_in_text_order (net : network) (tk : tiktoken)
  (embed : string -> json) (uuid model key url completion_window : string)
  (wait_interval token_limit : Z) (bound fuel : nat) (texts : list string)
  (h : history) :
  accepts_uploads (connect net key url) ->
  accepts_jobs (connect net key url) ->
  completes_within (connect net key url) wait_interval bound ->
  answers_every_request (connect net key url) embed ->
  bound < fuel ->
  (forall text, In text texts ->
     exists tokens, _get_token_count tk model text = Ok tokens) ->
  (forall text rest, texts = text :: rest ->
     exists tokens, _get_token_count tk model text = Ok tokens
                    /\ (tokens <= token_limit)%Z) ->
  List.length texts <= 5 * 2048 ->
  exists h',
    _request_async_embedding net tk uuid fuel model texts key url
      completion_window wait_interval token_limit h
    = (Ret (map embed texts), h').
Proof.
  intros Hup Hjob Hdone Hanswers Hfuel Hcount Hfirst Hlen.
  apply (async_answered net tk embed uuid model key url completion_window
           wait_interval token_limit bound fuel texts
           Hup Hjob Hdone Hanswers Hfuel Hcount Hfirst Hlen).
Qed.

Lemma async_embeddings_in_text_order_witness :
  exists h',
    _request_async_embedding (prompt_network tagged) no_tiktoken "u" 1 "m"
      three_texts "key" "https://api.openai.com/v1" "24h" 60 3 []
    = (Ret (map tagged three_texts), h').
Proof.
  apply (async_embeddings_in_text_order (prompt_network tagged) no_tiktoken tagged
           "u" "m" "key" "https://api.openai.com/v1" "24h" 60 3 0 1 three_texts []
           (prompt_client_uploads tagged) (prompt_client_jobs tagged)
           (prompt_client_completes tagged 60) (prompt_client_answers tagged)).
  - lia.
  - intros text _. eexists. reflexivity.
  - intros text rest Heq. injection Heq as <- _. exists 2%Z. split; [reflexivity | lia].
  - simpl. lia.
Defined.

(** ** No more than five submissions *)

Section Submissions.

Variables (client : OpenAI) (uuid : string) (batch_idx : nat) (batch : payload).
Variables (completion_window : string) (wait_interval : Z).

Lemma poll_keeps_uploads (fuel : nat) (job_id : string) (h : history) :
  uploads (snd (poll fuel client job_id wait_interval h)) = uploads h.
Proof.
  revert h. induction fuel as [| fuel IH]; intros h; simpl; [reflexivity |].
  unfold bind at 1, call at 1.
  destruct (batches_retrieve client h job_id) as [b | e]; simpl; [| reflexivity].
  destruct (ready b) as [id |].
  - unfold bind at 1, emit at 1. unfold bind at 1, call at 1.
    destruct (files_content client _ id) as [output_content | e]; simpl; [| reflexivity].
    destruct (assemble output_content); reflexivity.
  - destruct (terminal_failure (status b)); [reflexivity |].
    unfold bind at 1, _print_with_time, emit at 1.
    unfold bind at 1, emit at 1.
    rewrite IH. reflexivity.
Qed.

Lemma process_attempt_uploads (fuel : nat) (h : history) :
  uploads (snd (process_attempt fuel client uuid batch_idx batch completion_window
                  wait_interval h))
  = uploads h + 1.
Proof.
  unfold process_attempt, try_except.
  unfold bind at 1, call at 1.
  destruct (files_create client h _ batch) as [f | e]; simpl;
    [| unfold uploads; simpl; lia].
  unfold bind at 1, call at 1.
  destruct (batches_create client _ (file_id f) _ completion_window) as [job | e]; simpl;
    [| unfold uploads; simpl; lia].
  match goal with
  | |- context [poll fuel client ?j wait_interval ?h2] =>
      pose proof (poll_keeps_uploads fuel j h2) as Hpoll;
      destruct (poll fuel client j wait_interval h2) as [[l | e |] h3]
  end; simpl in *; unfold uploads in *; simpl in *; lia.
Qed.

Lemma retry_from_uploads (fuel left attempt_number : nat) (h : history) :
  let h' := snd (retry_from (wait_exponential 1 4 10) left attempt_number
                   (process_attempt fuel client uuid batch_idx batch completion_window
                      wait_interval) h) in
  uploads h + 1 <= uploads h' <= uploads h + S left.
Proof.
  revert attempt_number h.
  induction left as [| left IH]; intros attempt_number h; simpl.
  - pose proof (process_attempt_uploads fuel h) as Hone.
    destruct (process_attempt fuel client uuid batch_idx batch completion_window
                wait_interval h) as [[l | e |] h1]; simpl in *; lia.
  - pose proof (process_attempt_uploads fuel h) as Hone.
    destruct (process_attempt fuel client uuid batch_idx batch completion_window
                wait_interval h) as [[l | e |] h1]; simpl in *; try lia.
    unfold bind, emit.
    specialize (IH (S attempt_number)
                   (Sleep (wait_exponential 1 4 10 attempt_number) :: h1)).
    simpl in IH.
    change (uploads (Sleep (wait_exponential 1 4 10 attempt_number) :: h1))
      with (uploads h1) in IH.
    lia.
Qed.

End Submissions.

(** X14: whatever the provider does and however long the polls go on,
    one call of [_process_one_batch] uploads the batch at least once and at
    most five times. *)
Theorem at_most_five_uploads (client : OpenAI) (uuid : string) (batch_idx : nat)
  (batch : payload) (completion_window : string) (wait_interval : Z)
  (fuel : nat) (h : history) :
  let h' := snd (_process_one_batch fuel client uuid batch_idx batch
                   completion_window wait_interval h) in
  uploads h + 1 <= uploads h' <= uploads h + 5.
Proof.
  apply (retry_from_uploads client uuid batch_idx batch completion_window
           wait_interval fuel 4 1 h).
Qed.

(** ** The synchronous path *)

Section Sync.

Variables (net : network) (url key : string) (texts : list string) (model : string).

Lemma sync_attempt_data (h : history) (fields : list (string * json))
  (items embeddings : list json) :
  requests_post net (Log "Using single processing for OpenAI embeddings" :: h)
    (url ++ "/embeddings") key texts model = Ok (JObj fields) ->
  dict_get "data" fields = Some (JArr items) ->
  rmap (fun elem => getitem elem "embedding") items = Ok embeddings ->
  sync_attempt net url key texts model h
  = (Ret embeddings,
     Post (url ++ "/embeddings") key texts model
       :: Log "Using single processing for OpenAI embeddings" :: h).
Proof.
  intros Hpost Hdata Hitems.
  unfold sync_attempt.
  unfold bind at 1, emit at 1.
  unfold bind at 1, call at 1, lift at 1. rewrite Hpost. unfold ret at 1.
  unfold bind at 1. simpl. rewrite Hdata. simpl.
  rewrite Hitems. reflexivity.
Qed.

Lemma sync_attempt_no_data (h : history) (fields : list (string * json)) :
  requests_post net (Log "Using single processing for OpenAI embeddings" :: h)
    (url ++ "/embeddings") key texts model = Ok (JObj fields) ->
  dict_get "data" fields = None ->
  sync_attempt net url key texts model h
  = (Raise (PlainException "Something went wrong :/"),
     Log "error" :: Post (url ++ "/embeddings") key texts model
       :: Log "Using single processing for OpenAI embeddings" :: h).
Proof.
  intros Hpost Hdata.
  unfold sync_attempt.
  unfold bind at 1, emit at 1.
  unfold bind at 1, call at 1, lift at 1. rewrite Hpost. unfold ret at 1.
  unfold bind at 1. simpl. rewrite Hdata. simpl. reflexivity.
Qed.

Lemma sync_retry_no_data (left attempt_number : nat) (h : history) :
  answers_without_data net ->
  exists h',
    retry_from (wait_exponential 1 4 10) left attempt_number
      (sync_attempt net url key texts model) h
    = (Raise (RetryError (PlainException "Something went wrong :/")), h')
    /\ posts h' = posts h + S left
    /\ sleeps h' = sleeps h + left.
Proof.
  intros Hnet. revert attempt_number h.
  induction left as [| left IH]; intros attempt_number h.
  - destruct (Hnet (Log "Using single processing for OpenAI embeddings" :: h)
                   (url ++ "/embeddings") key texts model) as (fields & Hpost & Hdata).
    eexists. split.
    + apply retry_from_last_raised. apply (sync_attempt_no_data h fields Hpost Hdata).
    + unfold posts, sleeps. simpl. split; lia.
  - destruct (Hnet (Log "Using single processing for OpenAI embeddings" :: h)
                   (url ++ "/embeddings") key texts model) as (fields & Hpost & Hdata).
    rewrite (retry_from_raised _ _ _ _ _ _ _ (sync_attempt_no_data h fields Hpost Hdata)).
    match goal with
    | |- context [retry_from _ left (S attempt_number) _ ?h1] =>
        destruct (IH (S attempt_number) h1) as (h' & Hrun & Hp & Hs)
    end.
    exists h'. split; [exact Hrun |].
    unfold posts, sleeps in *. simpl in *. split; lia.
Qed.

End Sync.

Lemma rmap_embedding_items (embeddings : list json) :
  rmap (fun elem => getitem elem "embedding")
    (map (fun e => JObj [("embedding", e)]) embeddings)
  = Ok embeddings.
Proof.
  induction embeddings as [| e es IH]; simpl; [reflexivity |].
  rewrite IH. reflexivity.
Qed.

(** X15: when the endpoint answers the first request with an object whose
    field "data" is a list of objects with an "embedding" each,
    [_request_sync_embedding] returns these embeddings in the order of the
    list, after one request and without a wait; it returns as many as the
    list holds, whatever the number of texts. *)
Theorem sync_embeddings_in_response_order (net : network) (url key : string)
  (texts : list string) (model : string) (h : history)
  (fields : list (string * json)) (items embeddings : list json) :
  requests_post net (Log "Using single processing for OpenAI embeddings" :: h)
    (url ++ "/embeddings") key texts model = Ok (JObj fields) ->
  dict_get "data" fields = Some (JArr items) ->
  rmap (fun elem => getitem elem "embedding") items = Ok embeddings ->
  _request_sync_embedding net url key texts model h
  = (Ret embeddings,
     Post (url ++ "/embeddings") key texts model
       :: Log "Using single processing for OpenAI embeddings" :: h)
  /\ List.length embeddings = List.length items.
Proof.
  intros Hpost Hdata Hitems. split.
  - unfold _request_sync_embedding, retry.
    apply retry_from_not_raised; [| discriminate].
    apply (sync_attempt_data net url key texts model h fields items embeddings
             Hpost Hdata Hitems).
  - clear Hpost Hdata. revert embeddings Hitems.
    induction items as [| item items IH]; simpl; intros embeddings Hitems.
    + injection Hitems as <-. reflexivity.
    + destruct (getitem item "embedding"); simpl in Hitems; [| discriminate].
      destruct (rmap (fun elem => getitem elem "embedding") items) as [es |];
        simpl in Hitems; [| discriminate].
      injection Hitems as <-. simpl. f_equal. apply IH. reflexivity.
Qed.

Lemma sync_embeddings_in_response_order_witness :
  _request_sync_embedding (prompt_network tagged) "https://api.openai.com/v1" "key"
    ["a"; "b"] "m" []
  = (Ret [tagged "a"; tagged "b"],
     [Post "https://api.openai.com/v1/embeddings" "key" ["a"; "b"] "m";
      Log "Using single processing for OpenAI embeddings"])
  /\ List.length [tagged "a"; tagged "b"] = 2.
Proof.
  apply (sync_embeddings_in_response_order (prompt_network tagged)
           "https://api.openai.com/v1" "key" ["a"; "b"] "m" []
           [("object", JStr "list");
            ("data", JArr [JObj [("embedding", tagged "a")];
                           JObj [("embedding", tagged "b")]])]
           [JObj [("embedding", tagged "a")]; JObj [("embedding", tagged "b")]]
           [tagged "a"; tagged "b"]); reflexivity.
Defined.

(** X16: an answer without the field "data" is an exception like any
    other for the retry policy: when every answer of the endpoint is such
    an object, a call with less than 500000 characters posts the request
    five times, waits four times, and returns [None]. *)
Theorem answer_without_data_gives_none (net : network) (tk : tiktoken)
  (uuid : string) (fuel : nat) (model : string) (texts : list string)
  (key url : string) (h : history) :
  answers_without_data net ->
  (text_length texts < 500000)%Z ->
  exists h',
    generate_openai_batch_embeddings net tk uuid fuel model texts key url h
    = (Ret None, h')
    /\ posts h' = posts h + 5
    /\ sleeps h' = sleeps h + 4.
Proof.
  intros Hnet Hshort.
  rewrite generate_caught.
  apply Z.ltb_lt in Hshort. rewrite Hshort.
  unfold _request_sync_embedding, retry, stop_after_attempt.
  destruct (sync_retry_no_data net url key texts model 4 1 (logged_sync h) Hnet)
    as (h' & Hrun & Hp & Hs).
  simpl Nat.sub. rewrite Hrun. simpl.
  eexists. split; [reflexivity |].
  unfold posts, sleeps, logged_sync in *. simpl in *. split; lia.
Qed.

Lemma answer_without_data_gives_none_witness :
  exists h',
    generate_openai_batch_embeddings refusing_network no_tiktoken "u" 1 "m"
      five_sentences "key" "https://api.openai.com/v1" []
    = (Ret None, h')
    /\ posts h' = posts [] + 5
    /\ sleeps h' = sleeps [] + 4.
Proof.
  apply (answer_without_data_gives_none refusing_network no_tiktoken "u" 1 "m"
           five_sentences "key" "https://api.openai.com/v1" []).
  - intros h url key texts model. eexists. split; reflexivity.
  - vm_compute. reflexivity.
Defined.

(** ** Records without embeddings *)

Lemma itemgetter_keeps (raw : list json) (keyed_results : list (string * json)) :
  rmap itemgetter_custom_id raw = Ok keyed_results -> map snd keyed_results = raw.
Proof.
  revert keyed_results.
  induction raw as [| j raw IH]; simpl; intros keyed_results Hok.
  - injection Hok as <-. reflexivity.
  - destruct (itemgetter_custom_id j) as [[k j'] |] eqn:Hj; simpl in Hok; [| discriminate].
    destruct (rmap itemgetter_custom_id raw) as [rest |]; simpl in Hok; [| discriminate].
    injection Hok as <-. simpl. f_equal; [| apply IH; reflexivity].
    unfold itemgetter_custom_id in Hj.
    destruct (getitem j "custom_id") as [v |]; simpl in Hj; [| discriminate].
    destruct (str_key v); simpl in Hj; [| discriminate].
    injection Hj as _ <-. reflexivity.
Qed.

(** X17: the assembly gives all the embeddings or none: when a line of
    the output parses to a value from which the embeddings cannot be read
    (no "response", no "body", no "data", an item without "embedding"), the
    assembly raises, whatever the other lines hold. *)
Theorem assembly_is_all_or_nothing (raw : list json) (bad : json) (e : exn) :
  In bad raw ->
  embeddings_of bad = Err e ->
  exists e', assemble (map Some raw) = Err e'.
Proof.
  intros Hin Hbad. unfold assemble.
  replace (split_lines (map Some raw)) with (map Some raw)
    by (destruct raw; [contradiction | reflexivity]).
  rewrite loads_parsed. simpl.
  destruct (rmap itemgetter_custom_id raw) as [keyed_results | e1] eqn:Hkeys; simpl;
    [| exists e1; reflexivity].
  destruct (rmap_err_at embeddings_of (map snd (sorted keyed_results)) bad)
    as [e2 He2].
  - apply (Permutation_in bad (Permutation_map snd (Permutation_sym (sorted_perm _)))).
    rewrite (itemgetter_keeps raw keyed_results Hkeys). exact Hin.
  - exists e. exact Hbad.
  - rewrite He2. exists e2. reflexivity.
Qed.

Lemma assembly_is_all_or_nothing_witness :
  exists e',
    assemble (map Some [record ("batch_u_0_0", [tagged "a"]);
                        error_record "batch_u_0_2048"]) = Err e'.
Proof.
  apply (assembly_is_all_or_nothing
           [record ("batch_u_0_0", [tagged "a"]); error_record "batch_u_0_2048"]
           (error_record "batch_u_0_2048") (KeyError "data")).
  - right. left. reflexivity.
  - reflexivity.
Defined.

(** ** The whole call against a provider that answers *)

(** X18: against a provider that answers every synchronous request with
    one embedding a text in order, and every batch job within [bound]
    pending polls with one record a request in any order,
    [generate_openai_batch_embeddings] returns the embeddings of the texts,
    the one of text [k] at position [k]: for less than 500000 characters in
    any case, and for more when the counter returns on every text, the
    first text is within 1000000 tokens and there are at most 10240
    texts. *)
Theorem embeddings_in_text_order (net : network) (tk : tiktoken)
  (embed : string -> json) (uuid model key url : string) (bound fuel : nat)
  (texts : list string) (h : history) :
  answers_every_text net embed ->
  accepts_uploads (connect net key url) ->
  accepts_jobs (connect net key url) ->
  completes_within (connect net key url) 60 bound ->
  answers_every_request (connect net key url) embed ->
  bound < fuel ->
  ((500000 <= text_length texts)%Z ->
   (forall text, In text texts ->
      exists tokens, _get_token_count tk model text = Ok tokens)
   /\ (forall text rest, texts = text :: rest ->
         exists tokens, _get_token_count tk model text = Ok tokens
                        /\ (tokens <= 1000000)%Z)
   /\ List.length texts <= 5 * 2048) ->
  exists h',
    generate_openai_batch_embeddings net tk uuid fuel model texts key url h
    = (Ret (Some (map embed texts)), h').
Proof.
  intros Hsync Hup Hjob Hdone Hanswers Hfuel Hlong.
  rewrite generate_caught.
  destruct (Z.ltb_spec (text_length texts) 500000) as [Hshort | Hge].
  - assert (Hattempt :
              sync_attempt net url key texts model (logged_sync h)
              = (Ret (map embed texts),
                 Post (url ++ "/embeddings") key texts model
                   :: Log "Using single processing for OpenAI embeddings"
                   :: logged_sync h)).
    { apply (sync_attempt_data net url key texts model (logged_sync h)
               [("object", JStr "list");
                ("data", JArr (map (fun e => JObj [("embedding", e)])
                                 (map embed texts)))]
               (map (fun e => JObj [("embedding", e)]) (map embed texts))
               (map embed texts)).
      - rewrite Hsync. unfold sync_answer. rewrite map_map. reflexivity.
      - reflexivity.
      - apply rmap_embedding_items. }
    unfold _request_sync_embedding, retry.
    rewrite (retry_from_not_raised _ _ _ _ _ _ _ Hattempt) by discriminate.
    simpl. eexists. reflexivity.
  - destruct (Hlong Hge) as (Hcount & Hfirst & Hlen).
    destruct (async_answered net tk embed uuid model key url "24h" 60 1000000
                bound fuel texts Hup Hjob Hdone Hanswers Hfuel Hcount Hfirst Hlen
                (logged_async h)) as [h' Hrun].
    rewrite Hrun. simpl. eexists. reflexivity.
Qed.

(** X19: for the empty list of texts the planner yields no batch,
    whatever the tokenizer and the limit, and the asynchronous path returns
    the empty list without a call to the provider. *)
Theorem no_text_no_call (net : network) (tk : tiktoken) (uuid : string)
  (fuel : nat) (model key url completion_window : string)
  (wait_interval token_limit : Z) (chunk_size : positive) (h : history) :
  _batch_iterator tk [] model uuid token_limit chunk_size = ([], None)
  /\ _request_async_embedding net tk uuid fuel model [] key url
       completion_window wait_interval token_limit h
     = (Ret [], h).
Proof. split; reflexivity. Qed.

Lemma prompt_network_answers (embed : string -> json) :
  answers_every_text (prompt_network embed) embed.
Proof. intros h url key texts model. reflexivity. Qed.

Lemma embeddings_in_text_order_witness :
  exists h',
    generate_openai_batch_embeddings (prompt_network tagged) no_tiktoken "u" 1 "m"
      [long_text] "key" "https://api.openai.com/v1" []
    = (Ret (Some (map tagged [long_text])), h').
Proof.
  assert (Hfits : (len long_text / 4 <= 1000000)%Z) by (vm_compute; discriminate).
  apply (embeddings_in_text_order (prompt_network tagged) no_tiktoken tagged
           "u" "m" "key" "https://api.openai.com/v1" 0 1 [long_text] []
           (prompt_network_answers tagged)
           (prompt_client_uploads tagged) (prompt_client_jobs tagged)
           (prompt_client_completes tagged 60) (prompt_client_answers tagged)).
  - lia.
  - intros _. split; [| split].
    + intros text _. eexists. reflexivity.
    + intros text rest Heq. injection Heq as <- _.
      exists (len long_text / 4)%Z. split; [reflexivity | exact Hfits].
    + simpl. lia.
Defined.

(** ** Errors that pass *)

Section Transient.

Variables (client : OpenAI) (embed : string -> json) (uuid : string).
Variables (completion_window : string) (wait_interval : Z) (bound fuel : nat).
Variables (batch_idx : nat) (batch : payload) (threshold : nat).

Hypothesis Hflaky : uploads_fail_until client threshold.
Hypothesis Hjob : accepts_jobs client.
Hypothesis Hdone : completes_within client wait_interval bound.
Hypothesis Hanswers : answers_every_request client embed.
Hypothesis Hfuel : bound < fuel.
Hypothesis Hne : batch <> [].
Hypothesis Hasc : ids_ascend batch.

Lemma attempt_upload_fails (h : history) :
  uploads h < threshold ->
  exists e h',
    process_attempt fuel client uuid batch_idx batch completion_window wait_interval h
    = (Raise e, h')
    /\ uploads h' = uploads h + 1.
Proof using Hflaky.
  clear Hfuel. intros Hlow.
  destruct (proj1 Hflaky h ("batch_" ++ uuid ++ "_" ++ str_of_nat batch_idx ++ ".jsonl")
              batch Hlow) as [e He].
  exists e. eexists.
  unfold process_attempt, try_except.
  unfold bind at 1, call at 1, lift at 1. rewrite He. unfold raise at 1.
  split; [reflexivity |].
  unfold uploads. simpl. lia.
Qed.

Lemma attempt_answered (h : history) :
  threshold <= uploads h ->
  exists h',
    process_attempt fuel client uuid batch_idx batch completion_window wait_interval h
    = (Ret (map embed (payload_texts batch)), h')
    /\ uploads h' = uploads h + 1.
Proof.
  intros Hhigh.
  destruct (proj2 Hflaky h ("batch_" ++ uuid ++ "_" ++ str_of_nat batch_idx ++ ".jsonl")
              batch Hhigh) as [f Hf].
  destruct (Hjob (FilesCreate ("batch_" ++ uuid ++ "_" ++ str_of_nat batch_idx ++ ".jsonl")
                    batch :: h)
                 (file_id f) "/v1/embeddings" completion_window) as [job Hj].
  destruct (Hdone (BatchesCreate (file_id f) "/v1/embeddings" completion_window
                     :: FilesCreate ("batch_" ++ uuid ++ "_" ++ str_of_nat batch_idx
                                     ++ ".jsonl") batch :: h)
                  (batch_id job))
    as (n & h3 & b & id & Hn & Hpending & Hget & Hready).
  destruct (Hanswers (Log "Batch Job Completed" :: BatchesRetrieve (batch_id job) :: h3) id)
    as (output_content & Hcontent & Hperm).
  destruct (poll_through_pending client (batch_id job) wait_interval n (S (fuel - S n))
              _ h3 Hpending) as (Hpoll & _ & _ & Hu & Hlast).
  simpl in Hperm, Hlast. rewrite Hlast in Hperm.
  exists (FilesContent id :: Log "Batch Job Completed"
            :: BatchesRetrieve (batch_id job) :: h3).
  split.
  - rewrite (process_attempt_polls client uuid batch_idx batch completion_window
               wait_interval fuel h f job Hf Hj).
    replace fuel with (n + S (fuel - S n)) at 1 by lia.
    rewrite Hpoll.
    rewrite (poll_completed client (batch_id job) wait_interval _ h3 b id
               output_content Hget Hready Hcontent).
    unfold assembled.
    rewrite (assemble_in_request_order embed batch output_content Hne Hasc Hperm).
    reflexivity.
  - unfold uploads in *. simpl in *. lia.
Qed.

Lemma retry_absorbs (failures left attempt_number : nat) (h : history) :
  threshold = uploads h + failures ->
  failures <= left ->
  exists h',
    retry_from (wait_exponential 1 4 10) left attempt_number
      (process_attempt fuel client uuid batch_idx batch completion_window
         wait_interval) h
    = (Ret (map embed (payload_texts batch)), h')
    /\ uploads h' = uploads h + failures + 1.
Proof.
  revert left attempt_number h.
  induction failures as [| failures IH]; intros left attempt_number h Hthr Hleft.
  - destruct (attempt_answered h) as (h' & Hrun & Hu); [lia |].
    exists h'. split; [| lia].
    apply retry_from_not_raised; [exact Hrun | discriminate].
  - destruct (attempt_upload_fails h) as (e & h1 & Hrun & Hu); [lia |].
    destruct left as [| left]; [lia |].
    rewrite (retry_from_raised _ _ _ _ _ _ _ Hrun).
    destruct (IH left (S attempt_number)
                 (Sleep (wait_exponential 1 4 10 attempt_number) :: h1))
      as (h' & Hrun' & Hu').
    + change (uploads (Sleep (wait_exponential 1 4 10 attempt_number) :: h1))
        with (uploads h1). lia.
    + lia.
    + exists h'. split; [exact Hrun' |].
      change (uploads (Sleep (wait_exponential 1 4 10 attempt_number) :: h1))
        with (uploads h1) in Hu'. lia.
Qed.

Lemma retry_gives_up (left attempt_number : nat) (h : history) :
  uploads h + left < threshold ->
  exists e h',
    retry_from (wait_exponential 1 4 10) left attempt_number
      (process_attempt fuel client uuid batch_idx batch completion_window
         wait_interval) h
    = (Raise (RetryError e), h')
    /\ uploads h' = uploads h + S left.
Proof using Hflaky.
  clear Hfuel. revert attempt_number h.
  induction left as [| left IH]; intros attempt_number h Hlow.
  - destruct (attempt_upload_fails h) as (e & h1 & Hrun & Hu); [lia |].
    exists e, h1. split; [| lia].
    apply retry_from_last_raised. exact Hrun.
  - destruct (attempt_upload_fails h) as (e & h1 & Hrun & Hu); [lia |].
    rewrite (retry_from_raised _ _ _ _ _ _ _ Hrun).
    destruct (IH (S attempt_number)
                 (Sleep (wait_exponential 1 4 10 attempt_number) :: h1))
      as (e' & h' & Hrun' & Hu').
    + change (uploads (Sleep (wait_exponential 1 4 10 attempt_number) :: h1))
        with (uploads h1). lia.
    + exists e', h'. split; [exact Hrun' |].
      change (uploads (Sleep (wait_exponential 1 4 10 attempt_number) :: h1))
        with (uploads h1) in Hu'. lia.
Qed.

End Transient.

(** X20: the retry policy takes up to four failed submissions of a batch:
    when the uploads of a provider that otherwise answers fail [failures]
    times and then work, [_process_one_batch] returns the embeddings of the
    batch after [failures + 1] uploads if [failures] is at most 4, and
    raises [RetryError] after five uploads if it is more. *)
Theorem four_failed_uploads_are_absorbed (client : OpenAI) (embed : string -> json)
  (uuid completion_window : string) (wait_interval : Z) (bound fuel batch_idx : nat)
  (batch : payload) (failures : nat) (h : history) :
  uploads_fail_until client (uploads h + failures) ->
  accepts_jobs client ->
  completes_within client wait_interval bound ->
  answers_every_request client embed ->
  bound < fuel ->
  batch <> [] ->
  ids_ascend batch ->
  (failures <= 4 ->
   exists h',
     _process_one_batch fuel client uuid batch_idx batch completion_window
       wait_interval h
     = (Ret (map embed (payload_texts batch)), h')
     /\ uploads h' = uploads h + failures + 1)
  /\ (4 < failures ->
      exists e h',
        _process_one_batch fuel client uuid batch_idx batch completion_window
          wait_interval h
        = (Raise (RetryError e), h')
        /\ uploads h' = uploads h + 5).
Proof.
  intros Hflaky Hjob Hdone Hanswers Hfuel Hne Hasc.
  unfold _process_one_batch, retry, stop_after_attempt. simpl Nat.sub.
  split.
  - intros Hfew.
    apply (retry_absorbs client embed uuid completion_window wait_interval bound fuel
             batch_idx batch (uploads h + failures)
             Hflaky Hjob Hdone Hanswers Hfuel Hne Hasc failures 4 1 h eq_refl Hfew).
  - intros Hmany.
    apply (retry_gives_up client uuid completion_window wait_interval fuel
             batch_idx batch (uploads h + failures) Hflaky 4 1 h).
    lia.
Qed.

Lemma flaky_client_uploads (threshold : nat) (embed : string -> json) :
  uploads_fail_until (flaky_client threshold embed) threshold.
Proof.
  split; intros h name batch Hcmp; simpl.
  - apply Nat.ltb_lt in Hcmp. rewrite Hcmp. eexists. reflexivity.
  - apply Nat.ltb_ge in Hcmp. rewrite Hcmp. eexists. reflexivity.
Qed.

Lemma flaky_client_jobs (threshold : nat) (embed : string -> json) :
  accepts_jobs (flaky_client threshold embed).
Proof. intros h a b c. eexists. reflexivity. Qed.

Lemma flaky_client_completes (threshold : nat) (embed : string -> json)
  (wait_interval : Z) :
  completes_within (flaky_client threshold embed) wait_interval 0.
Proof.
  intros h job_id.
  exists 0, h,
    {| batch_id := "job"; status := completed; output_file_id := Some "file-out" |},
    "file-out".
  repeat split; [lia | constructor].
Qed.

Lemma flaky_client_answers (threshold : nat) (embed : string -> json) :
  answers_every_request (flaky_client threshold embed) embed.
Proof. intros h id. eexists. split; [reflexivity | apply Permutation_refl]. Qed.

Lemma four_failed_uploads_are_absorbed_witness :
  exists h',
    _process_one_batch 1 (flaky_client 3 tagged) "u" 0 one_text_batch "24h" 30 []
    = (Ret (map tagged (payload_texts one_text_batch)), h')
    /\ uploads h' = uploads [] + 3 + 1.
Proof.
  assert (Hne : one_text_batch <> []) by discriminate.
  assert (Hasc : ids_ascend one_text_batch) by (repeat constructor).
  assert (Hfuel : 0 < 1) by lia.
  assert (Hfew : 3 <= 4) by lia.
  exact (proj1 (four_failed_uploads_are_absorbed (flaky_client 3 tagged) tagged "u"
                  "24h" 30 0 1 0 one_text_batch 3 []
                  (flaky_client_uploads 3 tagged)
                  (flaky_client_jobs 3 tagged)
                  (flaky_client_completes 3 tagged 30)
                  (flaky_client_answers 3 tagged)
                  Hfuel Hne Hasc)
               Hfew).
Defined.
